(** * Spatial Touch: gesture core

  A shallow embedding of the recognition core of [spatial_touch]:

  - [utils/smoothing.py]    : the scalar smoothers,
  - [core/hand_tracker.py]  : [Point3D], [HandData] and the landmark
                              smoothing of [HandTracker],
  - [core/gesture_engine.py]: [PinchDetector] and [GestureEngine],
  - [core/zone_mapper.py]   : [ZoneMapper].

  Conventions.

  - A Python [float] is a rational number ([Q]) and the four arithmetic
    operations are exact.  Properties are stated on this embedding when
    they rest on the branches taken and on the expressions returned; an
    arithmetic expression in such a statement is the expression of the
    code, and equalities between computed floats are stated with [==]
    unless the two sides are the same expression.
  - Where rounding or overflow decides what the code does, the methods
    are embedded again over IEEE binary64 values (module [Binary64]) and
    the property is settled there.
  - A Python [int] is a [Z]; [int(x)] on a float truncates toward zero.
  - Methods that mutate [self] take the object and return the new one.
  - A method that can raise returns a [result].
  - [time.time()] is an explicit argument (seconds). *)

From Stdlib Require Import String ZArith QArith Qabs Lia Lqa Bool List SpecFloat.
Import ListNotations.

Local Open Scope Q_scope.

(* ================================================================== *)
(** * Python values *)
(* ================================================================== *)

Module Py.

(** The exceptions the modelled code can raise. *)
Inductive exn : Type :=
| ValueError (msg : string)
| ZeroDivisionError
| IndexError
| TypeError
| AttributeError
| OverflowError.

Inductive result (A : Type) : Type :=
| Ok (a : A)
| Raise (e : exn).
Arguments Ok {A} a.
Arguments Raise {A} e.

Definition bind {A B} (m : result A) (k : A -> result B) : result B :=
  match m with
  | Ok a => k a
  | Raise e => Raise e
  end.

Definition is_ok {A} (m : result A) : bool :=
  match m with Ok _ => true | Raise _ => false end.

(** [x < y] on floats. *)
Definition ltb (x y : Q) : bool := negb (Qle_bool y x).
Definition leb (x y : Q) : bool := Qle_bool x y.
Definition eqb (x y : Q) : bool := Qeq_bool x y.

(** [x / y], raising on a zero divisor. *)
Definition div (x y : Q) : result Q :=
  if eqb y 0 then Raise ZeroDivisionError else Ok (x / y).

(** [int(x)]: truncation toward zero. *)
Definition int (x : Q) : Z := Z.quot (Qnum x) (Zpos (Qden x)).

(** The builtin [min(a, b)] and [max(a, b)] on floats: the first argument
    wins a tie. *)
Definition min (a b : Q) : Q := if ltb b a then b else a.
Definition max (a b : Q) : Q := if ltb a b then b else a.

(** Truthiness of an [Optional[float]]: [None] and [0.0] are false. *)
Definition truthy (o : option Q) : bool :=
  match o with
  | None => false
  | Some t => negb (eqb t 0)
  end.

(** [len(xs)] as an [int]. *)
Definition len {A} (xs : list A) : Z := Z.of_nat (List.length xs).

(** [xs[i]] on a list: a negative index counts from the end. *)
Definition index {A} (xs : list A) (i : Z) : result A :=
  let j := if (i <? 0)%Z then (i + len xs)%Z else i in
  if (0 <=? j)%Z && (j <? len xs)%Z then
    match nth_error xs (Z.to_nat j) with
    | Some a => Ok a
    | None => Raise IndexError
    end
  else Raise IndexError.

End Py.

Notation "x <- m ;; k" := (Py.bind m (fun x => k))
(at level 61, m at next level, right associativity).
Notation "' p <- m ;; k" := (Py.bind m (fun p => k))
(at level 61, p pattern, m at next level, right associativity).

Import Py.

(* ================================================================== *)
(** * utils/smoothing.py *)
(* ================================================================== *)

Module ExponentialMovingAverage.

Record t : Type := mk {
  alpha : Q;
  _value : option Q;
  _initialized : bool
}.

(** [__init__(alpha)] *)
Definition init (a : Q) : result t :=
  if negb (leb 0 a && leb a 1)
  then Raise (ValueError "Alpha must be between 0 and 1")
  else Ok (mk a None false).

(** [update(new_value)] *)
Definition update (new_value : Q) (self : t) : result (Q * t) :=
  if negb (_initialized self) then
    Ok (new_value, mk (alpha self) (Some new_value) true)
  else
    match _value self with
    | Some prev =>
        let v := alpha self * new_value + (1 - alpha self) * prev in
        Ok (v, mk (alpha self) (Some v) (_initialized self))
    | None => Raise TypeError
    end.

(** [reset()] *)
Definition reset (self : t) : t := mk (alpha self) None false.

(** [set_alpha(alpha)] *)
Definition set_alpha (a : Q) (self : t) : result t :=
  if negb (leb 0 a && leb a 1)
  then Raise (ValueError "Alpha must be between 0 and 1")
  else Ok (mk a (_value self) (_initialized self)).

(** Feeding a sequence of samples, collecting the returned values. *)
Fixpoint run (vs : list Q) (self : t) : result (list Q * t) :=
  match vs with
  | [] => Ok ([], self)
  | v :: vs' =>
      '(o, self1) <- update v self ;;
      '(os, self2) <- run vs' self1 ;;
      Ok (o :: os, self2)
  end.

End ExponentialMovingAverage.

Module MovingAverage.

(** [_values] is a [deque(maxlen=window_size)], oldest element first. *)
Record t : Type := mk {
  window_size : Z;
  _values : list Q;
  _sum : Q
}.

(** The largest [maxlen] a [deque] takes ([sys.maxsize] of a 64-bit
    CPython) plus one. *)
Definition maxlen_limit : Z := 9223372036854775808.

(** [__init__(window_size)]: after the check of the size,
    [deque(maxlen=window_size)] refuses a length that does not fit a
    machine word. *)
Definition init (n : Z) : result t :=
  if (n <? 1)%Z
  then Raise (ValueError "Window size must be at least 1")
  else if (maxlen_limit <=? n)%Z then Raise OverflowError
  else Ok (mk n [] 0).

(** [deque.append] on a deque bounded by [maxlen]: a full deque drops its
    oldest element, a deque of capacity zero stays empty. *)
Definition deque_append (maxlen : Z) (xs : list Q) (v : Q) : list Q :=
  if (maxlen =? 0)%Z then []
  else if (len xs =? maxlen)%Z then List.tl xs ++ [v]
  else xs ++ [v].

(** [update(new_value)] *)
Definition update (new_value : Q) (self : t) : result (Q * t) :=
  s1 <- (if (len (_values self) =? window_size self)%Z then
           match _values self with
           | oldest :: _ => Ok (_sum self - oldest)
           | [] => Raise IndexError
           end
         else Ok (_sum self)) ;;
  let values := deque_append (window_size self) (_values self) new_value in
  let s2 := s1 + new_value in
  r <- div s2 (inject_Z (len values)) ;;
  Ok (r, mk (window_size self) values s2).

(** [reset()] *)
Definition reset (self : t) : t := mk (window_size self) [] 0.

Fixpoint run (vs : list Q) (self : t) : result (list Q * t) :=
  match vs with
  | [] => Ok ([], self)
  | v :: vs' =>
      '(o, self1) <- update v self ;;
      '(os, self2) <- run vs' self1 ;;
      Ok (o :: os, self2)
  end.

(** The [value] property: [None] while the window is empty. *)
Definition value (self : t) : option Q :=
  match _values self with
  | [] => None
  | _ :: _ => Some (_sum self / inject_Z (len (_values self)))
  end.

(** The [is_full] property. *)
Definition is_full (self : t) : bool :=
  (len (_values self) =? window_size self)%Z.

End MovingAverage.

Module DoubleExponentialSmoothing.

Record t : Type := mk {
  alpha : Q;
  beta : Q;
  _level : option Q;
  _trend : option Q;
  _initialized : bool
}.

(** [__init__(alpha, beta)]: the arguments are stored as given. *)
Definition init (a b : Q) : result t := Ok (mk a b None None false).

(** [update(new_value)] *)
Definition update (new_value : Q) (self : t) : result (Q * t) :=
  if negb (_initialized self) then
    Ok (new_value + 0, mk (alpha self) (beta self) (Some new_value) (Some 0) true)
  else
    match _level self, _trend self with
    | Some prev_level, Some trend =>
        let level := alpha self * new_value
                     + (1 - alpha self) * (prev_level + trend) in
        let trend' := beta self * (level - prev_level)
                      + (1 - beta self) * trend in
        Ok (level + trend',
            mk (alpha self) (beta self) (Some level) (Some trend')
               (_initialized self))
    | _, _ => Raise TypeError
    end.

(** [reset()] *)
Definition reset (self : t) : t := mk (alpha self) (beta self) None None false.

Fixpoint run (vs : list Q) (self : t) : result (list Q * t) :=
  match vs with
  | [] => Ok ([], self)
  | v :: vs' =>
      '(o, self1) <- update v self ;;
      '(os, self2) <- run vs' self1 ;;
      Ok (o :: os, self2)
  end.

(** The [value] property:
    [self._level + self._trend if self._trend else self._level], and [None]
    while there is no level. *)
Definition value (self : t) : option Q :=
  match _level self with
  | None => None
  | Some level =>
      if truthy (_trend self) then
        match _trend self with
        | Some trend => Some (level + trend)
        | None => Some level
        end
      else Some level
  end.

End DoubleExponentialSmoothing.

Module OneEuroFilter.

Module EMA := ExponentialMovingAverage.

Record t : Type := mk {
  min_cutoff : Q;
  beta : Q;
  d_cutoff : Q;
  _x_filter : option EMA.t;
  _dx_filter : option EMA.t;
  _last_value : option Q;
  _last_time : option Q
}.

(** [math.pi], the binary64 number nearest to pi. *)
Definition math_pi : Q := 884279719003555 # 281474976710656.

(** [__init__(min_cutoff, beta, d_cutoff)] *)
Definition init (mc b dc : Q) : result t := Ok (mk mc b dc None None None None).

(** [_alpha(cutoff, dt)] *)
Definition _alpha (cutoff dt : Q) : result Q :=
  tau <- div 1 (2 * math_pi * cutoff) ;;
  q <- div tau dt ;;
  div 1 (1 + q).

(** [update(value, timestamp)].  The early exit hands back [_last_value] as
    it is stored, hence the optional result.  A raised exception ends the
    call; the partly updated object is not observed. *)
Definition update (value timestamp : Q) (self : t) : result (option Q * t) :=
  match _last_time self with
  | None =>
      xf <- EMA.init (1 # 2) ;;
      dxf <- EMA.init (1 # 2) ;;
      Ok (Some value,
          mk (min_cutoff self) (beta self) (d_cutoff self)
             (Some xf) (Some dxf) (Some value) (Some timestamp))
  | Some last_time =>
      let dt := timestamp - last_time in
      if leb dt 0 then Ok (_last_value self, self)
      else
        match _last_value self, _dx_filter self, _x_filter self with
        | None, _, _ => Raise TypeError
        | Some last_value, dx_filter, x_filter =>
            dx <- div (value - last_value) dt ;;
            d_alpha <- _alpha (d_cutoff self) dt ;;
            match dx_filter with
            | None => Raise AttributeError
            | Some dxf =>
                dxf1 <- EMA.set_alpha d_alpha dxf ;;
                '(dx_hat, dxf2) <- EMA.update dx dxf1 ;;
                let cutoff := min_cutoff self + beta self * Qabs dx_hat in
                x_alpha <- _alpha cutoff dt ;;
                match x_filter with
                | None => Raise AttributeError
                | Some xf =>
                    xf1 <- EMA.set_alpha x_alpha xf ;;
                    '(x_hat, xf2) <- EMA.update value xf1 ;;
                    Ok (Some x_hat,
                        mk (min_cutoff self) (beta self) (d_cutoff self)
                           (Some xf2) (Some dxf2) (Some x_hat) (Some timestamp))
                end
            end
        end
  end.

(** [reset()] *)
Definition reset (self : t) : t :=
  mk (min_cutoff self) (beta self) (d_cutoff self) None None None None.

(** Feeding a sequence of [(value, timestamp)] samples. *)
Fixpoint run (samples : list (Q * Q)) (self : t) : result (list (option Q) * t) :=
  match samples with
  | [] => Ok ([], self)
  | (v, ts) :: rest =>
      '(o, self1) <- update v ts self ;;
      '(os, self2) <- run rest self1 ;;
      Ok (o :: os, self2)
  end.

End OneEuroFilter.

Module Point2DSmoother.

(** The two kinds of object the constructor can store. *)
Inductive smoother : Type :=
| Ema (e : ExponentialMovingAverage.t)
| Sma (m : MovingAverage.t).

Record t : Type := mk {
  _x_smoother : smoother;
  _y_smoother : smoother
}.

(** [__init__(alpha, smoother_type)]: every type other than ["ema"] selects
    the moving average, of window [int(1 / alpha)]. *)
Definition init (alpha : Q) (smoother_type : string) : result t :=
  if String.eqb smoother_type "ema" then
    x <- ExponentialMovingAverage.init alpha ;;
    y <- ExponentialMovingAverage.init alpha ;;
    Ok (mk (Ema x) (Ema y))
  else
    qx <- div 1 alpha ;;
    x <- MovingAverage.init (int qx) ;;
    qy <- div 1 alpha ;;
    y <- MovingAverage.init (int qy) ;;
    Ok (mk (Sma x) (Sma y)).

Definition smoother_update (v : Q) (s : smoother) : result (Q * smoother) :=
  match s with
  | Ema e => '(o, e') <- ExponentialMovingAverage.update v e ;; Ok (o, Ema e')
  | Sma m => '(o, m') <- MovingAverage.update v m ;; Ok (o, Sma m')
  end.

Definition smoother_reset (s : smoother) : smoother :=
  match s with
  | Ema e => Ema (ExponentialMovingAverage.reset e)
  | Sma m => Sma (MovingAverage.reset m)
  end.

(** [update(x, y)] *)
Definition update (x y : Q) (self : t) : result ((Q * Q) * t) :=
  '(ox, sx) <- smoother_update x (_x_smoother self) ;;
  '(oy, sy) <- smoother_update y (_y_smoother self) ;;
  Ok ((ox, oy), mk sx sy).

(** [reset()] *)
Definition reset (self : t) : t :=
  mk (smoother_reset (_x_smoother self)) (smoother_reset (_y_smoother self)).

Fixpoint run (ps : list (Q * Q)) (self : t) : result (list (Q * Q) * t) :=
  match ps with
  | [] => Ok ([], self)
  | (x, y) :: ps' =>
      '(o, self1) <- update x y self ;;
      '(os, self2) <- run ps' self1 ;;
      Ok (o :: os, self2)
  end.

End Point2DSmoother.

(* ================================================================== *)
(** * core/hand_tracker.py *)
(* ================================================================== *)

Module HandLandmark.

Definition THUMB_TIP : Z := 4.
Definition INDEX_TIP : Z := 8.
Definition MIDDLE_TIP : Z := 12.

End HandLandmark.

Module Point3D.

Record t : Type := mk { x : Q; y : Q; z : Q }.

Section Distance.

(** [numpy.sqrt] on floats, a function of the numeric library. *)
Variable np_sqrt : Q -> Q.

(** [distance_to(other)] *)
Definition distance_to (self other : t) : Q :=
  np_sqrt ((x self - x other) * (x self - x other)
           + (y self - y other) * (y self - y other)
           + (z self - z other) * (z self - z other)).

End Distance.

End Point3D.

Module HandData.

Record t : Type := mk {
  landmarks : list Point3D.t;
  handedness : string;
  confidence : Q;
  is_valid : bool
}.

(** [_get_landmark(index)] *)
Definition _get_landmark (index : Z) (self : t) : option Point3D.t :=
  if is_valid self && (0 <=? index)%Z && (index <? len (landmarks self))%Z
  then nth_error (landmarks self) (Z.to_nat index)
  else None.

Definition thumb_tip (self : t) := _get_landmark HandLandmark.THUMB_TIP self.
Definition index_tip (self : t) := _get_landmark HandLandmark.INDEX_TIP self.
Definition middle_tip (self : t) := _get_landmark HandLandmark.MIDDLE_TIP self.

(** [get_landmark(index)]: [HandLandmark(index)] raises for an integer that
    is not one of the 21 landmark indices. *)
Definition get_landmark (index : Z) (self : t) : result (option Point3D.t) :=
  if (0 <=? index)%Z && (index <=? 20)%Z
  then Ok (_get_landmark index self)
  else Raise (ValueError "not a valid HandLandmark").

End HandData.

Module HandTracker.

(** The smoothing of landmarks in [HandTracker]: the list [_smoothers]
    holds three exponential moving averages per landmark, for [x], [y] and
    [z].  The landmark detector itself is outside the model. *)

Definition NUM_LANDMARKS : Z := 21.

(** The smoothers that [start()] creates from [config.smoothing_factor]. *)
Definition start_smoothers (smoothing_factor : Q)
  : result (list ExponentialMovingAverage.t) :=
  e <- ExponentialMovingAverage.init smoothing_factor ;;
  Ok (repeat e (Z.to_nat (NUM_LANDMARKS * 3))).

(** [reset_smoothing()] *)
Definition reset_smoothing (smoothers : list ExponentialMovingAverage.t)
  : list ExponentialMovingAverage.t :=
  map ExponentialMovingAverage.reset smoothers.

(** The list with the element at position [i] replaced: what the update in
    place of [_smoothers[i]] leaves. *)
Fixpoint replace_at {A} (i : nat) (a : A) (xs : list A) : list A :=
  match xs, i with
  | [], _ => []
  | _ :: xs', O => a :: xs'
  | x :: xs', S i' => x :: replace_at i' a xs'
  end.

(** [self._smoothers[i].update(v)] *)
Definition smoother_update (i : Z) (v : Q)
           (smoothers : list ExponentialMovingAverage.t)
  : result (Q * list ExponentialMovingAverage.t) :=
  e <- index smoothers i ;;
  '(o, e') <- ExponentialMovingAverage.update v e ;;
  Ok (o, replace_at (Z.to_nat i) e' smoothers).

(** The loop of [_smooth_landmarks], from the landmark numbered [i] on. *)
Fixpoint smooth_from (i : Z) (landmarks : list Point3D.t)
         (smoothers : list ExponentialMovingAverage.t)
  : result (list Point3D.t * list ExponentialMovingAverage.t) :=
  match landmarks with
  | [] => Ok ([], smoothers)
  | point :: rest =>
      let base_idx := (i * 3)%Z in
      '(smooth_x, sm1) <- smoother_update base_idx (Point3D.x point) smoothers ;;
      '(smooth_y, sm2) <- smoother_update (base_idx + 1) (Point3D.y point) sm1 ;;
      '(smooth_z, sm3) <- smoother_update (base_idx + 2) (Point3D.z point) sm2 ;;
      '(smoothed, sm4) <- smooth_from (i + 1) rest sm3 ;;
      Ok (Point3D.mk smooth_x smooth_y smooth_z :: smoothed, sm4)
  end.

(** [_smooth_landmarks(landmarks)]: the smoothed landmarks and the
    smoothers afterwards. *)
Definition _smooth_landmarks (landmarks : list Point3D.t)
           (smoothers : list ExponentialMovingAverage.t)
  : result (list Point3D.t * list ExponentialMovingAverage.t) :=
  smooth_from 0 landmarks smoothers.

End HandTracker.

(* ================================================================== *)
(** * core/gesture_engine.py *)
(* ================================================================== *)

Inductive GestureType : Type :=
| NONE
| CURSOR_MOVE
| LEFT_CLICK
| RIGHT_CLICK
| DRAG_START
| DRAG_MOVE
| DRAG_END
| SCROLL_UP
| SCROLL_DOWN.

Inductive GestureState : Type :=
| IDLE
| TRIGGERED
| HOLDING
| RELEASED.

Definition GestureState_eqb (a b : GestureState) : bool :=
  match a, b with
  | IDLE, IDLE | TRIGGERED, TRIGGERED | HOLDING, HOLDING | RELEASED, RELEASED => true
  | _, _ => false
  end.

Module Gesture.

(** [metadata] maps a key to a pair of floats; the engine only ever stores
    the ["delta"] entry. *)
Record t : Type := mk {
  type : GestureType;
  position : Q * Q;
  confidence : Q;
  timestamp : Q;
  metadata : list (string * (Q * Q))
}.

End Gesture.

Module GestureConfig.

Record t : Type := mk {
  pinch_threshold : Q;
  debounce_ms : Z;
  hold_time_ms : Z;
  click_release_ms : Z;
  velocity_threshold : Q
}.

Definition default : t := mk (5 # 100) 200 300 200 (1 # 100).

End GestureConfig.

Module PinchDetector.

Record t : Type := mk {
  threshold : Q;
  debounce_ms : Z;
  hold_ms : Z;
  _state : GestureState;
  _pinch_start_time : option Q;
  _last_trigger_time : Q;
  _is_pinched : bool;
  _was_pinched : bool
}.

(** [__init__(threshold, debounce_ms, hold_ms)] *)
Definition init (thr : Q) (deb hold : Z) : t :=
  mk thr deb hold IDLE None 0 false false.

Definition with_state (st : GestureState) (self : t) : t :=
  mk (threshold self) (debounce_ms self) (hold_ms self) st
     (_pinch_start_time self) (_last_trigger_time self)
     (_is_pinched self) (_was_pinched self).

Definition with_pinch_start_time (o : option Q) (self : t) : t :=
  mk (threshold self) (debounce_ms self) (hold_ms self) (_state self)
     o (_last_trigger_time self) (_is_pinched self) (_was_pinched self).

Definition with_last_trigger_time (q : Q) (self : t) : t :=
  mk (threshold self) (debounce_ms self) (hold_ms self) (_state self)
     (_pinch_start_time self) q (_is_pinched self) (_was_pinched self).

(** [update(distance)], where [now] is the value of [time.time()] read by
    the call.  The new state is the [_state] of the returned detector. *)
Definition update (now : Q) (distance : Q) (self : t) : t :=
  let current_time := now * 1000 in
  let self :=
    mk (threshold self) (debounce_ms self) (hold_ms self) (_state self)
       (_pinch_start_time self) (_last_trigger_time self)
       (ltb distance (threshold self)) (_is_pinched self) in
  match _state self with
  | IDLE =>
      if _is_pinched self then
        if ltb (inject_Z (debounce_ms self))
               (current_time - _last_trigger_time self)
        then with_pinch_start_time (Some current_time) (with_state TRIGGERED self)
        else self
      else self
  | TRIGGERED =>
      if negb (_is_pinched self) then
        with_last_trigger_time current_time (with_state RELEASED self)
      else if truthy (_pinch_start_time self) then
        match _pinch_start_time self with
        | Some start =>
            if ltb (inject_Z (hold_ms self)) (current_time - start)
            then with_state HOLDING self
            else self
        | None => self
        end
      else self
  | HOLDING =>
      if negb (_is_pinched self) then
        with_last_trigger_time current_time (with_state RELEASED self)
      else self
  | RELEASED =>
      with_pinch_start_time None (with_state IDLE self)
  end.

(** [reset()] *)
Definition reset (self : t) : t :=
  mk (threshold self) (debounce_ms self) (hold_ms self) IDLE None
     (_last_trigger_time self) false false.

(** A history of calls on one detector. *)
Inductive call : Type :=
| Update (now distance : Q)
| Reset.

Definition step (c : call) (self : t) : t :=
  match c with
  | Update now distance => update now distance self
  | Reset => reset self
  end.

Fixpoint run (h : list call) (self : t) : t :=
  match h with
  | [] => self
  | c :: h' => run h' (step c self)
  end.

(** The clock reading, in milliseconds, of the most recent call in [h] that
    took the detector from another state into [RELEASED]; [acc] if there is
    none. *)
Fixpoint entered_released_at (h : list call) (self : t) (acc : Q) : Q :=
  match h with
  | [] => acc
  | c :: h' =>
      let self' := step c self in
      let acc' :=
        match c with
        | Update now _ =>
            if negb (GestureState_eqb (_state self) RELEASED)
               && GestureState_eqb (_state self') RELEASED
            then now * 1000 else acc
        | Reset => acc
        end in
      entered_released_at h' self' acc'
  end.

(** The clock reading, in milliseconds, of the most recent [update] in [h]
    that took the detector from [RELEASED] to [IDLE]; [acc] if there is
    none. *)
Fixpoint left_released_at (h : list call) (self : t) (acc : option Q) : option Q :=
  match h with
  | [] => acc
  | c :: h' =>
      let self' := step c self in
      let acc' :=
        match c with
        | Update now _ =>
            if GestureState_eqb (_state self) RELEASED
               && GestureState_eqb (_state self') IDLE
            then Some (now * 1000) else acc
        | Reset => acc
        end in
      left_released_at h' self' acc'
  end.

End PinchDetector.

Module GestureEngine.

(** The registered callbacks are observers outside the engine: what
    [_trigger_callbacks] hands them is recorded, in order, as the list of
    dispatched gestures of a call. *)
Record t : Type := mk {
  config : GestureConfig.t;
  _left_pinch : PinchDetector.t;
  _right_pinch : PinchDetector.t;
  _last_position : option (Q * Q);
  _is_dragging : bool
}.

(** The readings of [time.time()] during one call of [process]: by the
    update of the left detector, by the update of the right detector, and by
    the [Gesture] constructors (the timestamp of a gesture plays no role in
    recognition). *)
Record clock : Type := mk_clock {
  t_left : Q;
  t_right : Q;
  t_stamp : Q
}.

(** What one call of [process] produces. *)
Record outcome : Type := mk_outcome {
  returned : list Gesture.t;
  dispatched : list Gesture.t;
  engine : t
}.

(** [__init__(config)] *)
Definition init (cfg : GestureConfig.t) : t :=
  let detector :=
    PinchDetector.init (GestureConfig.pinch_threshold cfg)
                       (GestureConfig.debounce_ms cfg)
                       (GestureConfig.hold_time_ms cfg) in
  mk cfg detector detector None false.

(** [Gesture(type=ty, position=pos, metadata=md)] with the defaults of the
    dataclass. *)
Definition gesture (stamp : Q) (ty : GestureType) (pos : Q * Q)
           (md : list (string * (Q * Q))) : Gesture.t :=
  Gesture.mk ty pos 1 stamp md.

(** [_process_cursor_move(position)] *)
Definition _process_cursor_move (stamp : Q) (position : Q * Q) (self : t)
  : option Gesture.t :=
  match _last_position self with
  | None => None
  | Some last =>
      let dx := Qabs (fst position - fst last) in
      let dy := Qabs (snd position - snd last) in
      let vt := GestureConfig.velocity_threshold (config self) in
      if ltb vt dx || ltb vt dy
      then Some (gesture stamp CURSOR_MOVE position [("delta"%string, (dx, dy))])
      else None
  end.

Definition with_dragging (b : bool) (self : t) : t :=
  mk (config self) (_left_pinch self) (_right_pinch self)
     (_last_position self) b.

(** [_process_left_pinch(state, position)] *)
Definition _process_left_pinch (stamp : Q) (state : GestureState)
           (position : Q * Q) (self : t) : list Gesture.t * t :=
  match state with
  | TRIGGERED => ([], self)
  | HOLDING =>
      if negb (_is_dragging self)
      then ([gesture stamp DRAG_START position []], with_dragging true self)
      else ([gesture stamp DRAG_MOVE position []], self)
  | RELEASED =>
      if _is_dragging self
      then ([gesture stamp DRAG_END position []], with_dragging false self)
      else ([gesture stamp LEFT_CLICK position []], self)
  | IDLE => ([], self)
  end.

(** [_process_right_pinch(state, position)] *)
Definition _process_right_pinch (stamp : Q) (state : GestureState)
           (position : Q * Q) : option Gesture.t :=
  match state with
  | RELEASED => Some (gesture stamp RIGHT_CLICK position [])
  | _ => None
  end.

(** [_reset_on_no_hand()]: the gestures handed to the callbacks, and the
    engine afterwards. *)
Definition _reset_on_no_hand (stamp : Q) (self : t) : list Gesture.t * t :=
  let '(sent, self) :=
    if _is_dragging self then
      let g := gesture stamp DRAG_END
                 (match _last_position self with
                  | Some p => p
                  | None => (0, 0)
                  end) [] in
      ([g], with_dragging false self)
    else ([], self) in
  (sent,
   mk (config self)
      (PinchDetector.reset (_left_pinch self))
      (PinchDetector.reset (_right_pinch self))
      None (_is_dragging self)).

(** [reset()] *)
Definition reset (self : t) : t :=
  mk (config self)
     (PinchDetector.reset (_left_pinch self))
     (PinchDetector.reset (_right_pinch self))
     None false.

Definition opt_list {A} (o : option A) : list A :=
  match o with Some a => [a] | None => [] end.

(** The table [_callbacks]: for each gesture type the registered callbacks,
    in order of registration.  A callback is known by its identity. *)
Definition callbacks : Type := GestureType -> list nat.

Definition GestureType_eqb (a b : GestureType) : bool :=
  match a, b with
  | NONE, NONE | CURSOR_MOVE, CURSOR_MOVE | LEFT_CLICK, LEFT_CLICK
  | RIGHT_CLICK, RIGHT_CLICK | DRAG_START, DRAG_START | DRAG_MOVE, DRAG_MOVE
  | DRAG_END, DRAG_END | SCROLL_UP, SCROLL_UP | SCROLL_DOWN, SCROLL_DOWN => true
  | _, _ => false
  end.

(** The table of a new engine: an empty list for every type. *)
Definition no_callbacks : callbacks := fun _ => [].

(** [list.remove(x)]: the first occurrence goes. *)
Fixpoint remove_first (x : nat) (xs : list nat) : list nat :=
  match xs with
  | [] => []
  | y :: ys => if Nat.eqb y x then ys else y :: remove_first x ys
  end.

(** [on_gesture(gesture_type, callback)] *)
Definition on_gesture (ty : GestureType) (cb : nat) (table : callbacks)
  : callbacks :=
  fun ty' => if GestureType_eqb ty' ty then table ty' ++ [cb] else table ty'.

(** [off_gesture(gesture_type, callback)] *)
Definition off_gesture (ty : GestureType) (cb : nat) (table : callbacks)
  : callbacks :=
  fun ty' =>
    if GestureType_eqb ty' ty then
      if existsb (Nat.eqb cb) (table ty') then remove_first cb (table ty')
      else table ty'
    else table ty'.

(** [_trigger_callbacks(gesture)]: the calls made, in order.  A callback
    that raises is logged and the loop goes on. *)
Definition _trigger_callbacks (g : Gesture.t) (table : callbacks)
  : list (nat * Gesture.t) :=
  map (fun cb => (cb, g)) (table (Gesture.type g)).

Section Process.

Variable np_sqrt : Q -> Q.

(** [process(hand)] *)
Definition process (clk : clock) (hand : HandData.t) (self : t) : outcome :=
  if negb (HandData.is_valid hand) then
    let '(sent, self) := _reset_on_no_hand (t_stamp clk) self in
    mk_outcome [] sent self
  else
    match HandData.thumb_tip hand, HandData.index_tip hand,
          HandData.middle_tip hand with
    | Some thumb_tip, Some index_tip, Some middle_tip =>
        let cursor_pos := (Point3D.x index_tip, Point3D.y index_tip) in
        let left_distance := Point3D.distance_to np_sqrt thumb_tip index_tip in
        let right_distance := Point3D.distance_to np_sqrt thumb_tip middle_tip in
        let left := PinchDetector.update (t_left clk) left_distance
                      (_left_pinch self) in
        let right := PinchDetector.update (t_right clk) right_distance
                       (_right_pinch self) in
        let self := mk (config self) left right (_last_position self)
                       (_is_dragging self) in
        let left_state := PinchDetector._state left in
        let right_state := PinchDetector._state right in
        let cursor_gesture := _process_cursor_move (t_stamp clk) cursor_pos self in
        let '(left_gestures, self) :=
          _process_left_pinch (t_stamp clk) left_state cursor_pos self in
        let right_gesture :=
          _process_right_pinch (t_stamp clk) right_state cursor_pos in
        let gestures :=
          opt_list cursor_gesture ++ left_gestures ++ opt_list right_gesture in
        mk_outcome gestures gestures
          (mk (config self) (_left_pinch self) (_right_pinch self)
              (Some cursor_pos) (_is_dragging self))
    | _, _, _ => mk_outcome [] [] self
    end.

(** Frames fed one after the other, each with its clock readings. *)
Fixpoint run (frames : list (clock * HandData.t)) (self : t)
  : list outcome :=
  match frames with
  | [] => []
  | (clk, hand) :: rest =>
      let o := process clk hand self in
      o :: run rest (engine o)
  end.

(** Calls made on one engine: a frame given to [process], or [reset()]. *)
Inductive call : Type :=
| Frame (clk : clock) (hand : HandData.t)
| Reset.

Definition step (c : call) (self : t) : outcome :=
  match c with
  | Frame clk hand => process clk hand self
  | Reset => mk_outcome [] [] (reset self)
  end.

(** The engine after a sequence of calls. *)
Fixpoint after (calls : list call) (self : t) : t :=
  match calls with
  | [] => self
  | c :: calls' => after calls' (engine (step c self))
  end.

End Process.

End GestureEngine.

(* ================================================================== *)
(** * core/zone_mapper.py *)
(* ================================================================== *)


Module ScreenPoint.

Record t : Type := mk { x : Z; y : Z }.

End ScreenPoint.

Module ZoneConfig.

Record t : Type := mk {
  screen_width : Z;
  screen_height : Z;
  sensitivity : Q;
  dead_zone : Q;
  invert_x : bool;
  invert_y : bool;
  margin : Z;
  smoothing : Q;
  zone_columns : Z;
  zone_rows : Z
}.

Definition default : t :=
  mk 1920 1080 1 (2 # 100) true false 10 0 3 3.

End ZoneConfig.

Module ZoneMapper.

Record t : Type := mk {
  config : ZoneConfig.t;
  _last_position : option ScreenPoint.t
}.

(** [__init__(config)] *)
Definition init (cfg : ZoneConfig.t) : t := mk cfg None.

(** One axis of [map_position] up to the margin constraint: inversion,
    sensitivity about the centre, clamp to the unit interval, scale to
    pixels, clamp to the margins. *)
Definition axis_pixel (invert : bool) (sens : Q) (dim margin : Z) (v : Q) : Z :=
  let v := if invert then 1 - v else v in
  let v := if negb (eqb sens 1)
           then (1 # 2) + (v - (1 # 2)) * sens else v in
  let v := max 0 (min 1 v) in
  let screen := int (v * inject_Z dim) in
  Z.max margin (Z.min (dim - margin) screen).

(** The blend of the optional smoothing, on one axis. *)
Definition blend (s : Q) (screen last : Z) : Z :=
  let alpha := 1 - s in
  int (alpha * inject_Z screen + s * inject_Z last).

(** [map_position(normalized_pos)] *)
Definition map_position (normalized_pos : Q * Q) (self : t)
  : ScreenPoint.t * t :=
  let cfg := config self in
  let '(x, y) := normalized_pos in
  let margin := ZoneConfig.margin cfg in
  let screen_x := axis_pixel (ZoneConfig.invert_x cfg) (ZoneConfig.sensitivity cfg)
                    (ZoneConfig.screen_width cfg) margin x in
  let screen_y := axis_pixel (ZoneConfig.invert_y cfg) (ZoneConfig.sensitivity cfg)
                    (ZoneConfig.screen_height cfg) margin y in
  let position :=
    match _last_position self with
    | Some last =>
        if ltb 0 (ZoneConfig.smoothing cfg) then
          ScreenPoint.mk
            (blend (ZoneConfig.smoothing cfg) screen_x (ScreenPoint.x last))
            (blend (ZoneConfig.smoothing cfg) screen_y (ScreenPoint.y last))
        else ScreenPoint.mk screen_x screen_y
    | None => ScreenPoint.mk screen_x screen_y
    end in
  (position, mk cfg (Some position)).

(** [reset()] *)
Definition reset (self : t) : t := mk (config self) None.

(** Successive calls on one mapper, collecting the returned points. *)
Fixpoint run (ps : list (Q * Q)) (self : t) : list ScreenPoint.t :=
  match ps with
  | [] => []
  | p :: ps' =>
      let '(pt, self') := map_position p self in
      pt :: run ps' self'
  end.

(** [update_screen_size(width, height)] *)
Definition update_screen_size (width height : Z) (self : t) : t :=
  let c := config self in
  mk (ZoneConfig.mk width height (ZoneConfig.sensitivity c)
        (ZoneConfig.dead_zone c) (ZoneConfig.invert_x c) (ZoneConfig.invert_y c)
        (ZoneConfig.margin c) (ZoneConfig.smoothing c)
        (ZoneConfig.zone_columns c) (ZoneConfig.zone_rows c))
     (_last_position self).

(** [is_in_dead_zone(normalized_pos, reference_pos)]; the default reference
    is the last mapped point divided by the screen size. *)
Definition is_in_dead_zone (normalized_pos : Q * Q)
           (reference_pos : option (Q * Q)) (self : t) : result bool :=
  reference <-
    match reference_pos with
    | Some r => Ok (Some r)
    | None =>
        match _last_position self with
        | None => Ok None
        | Some last =>
            rx <- div (inject_Z (ScreenPoint.x last))
                      (inject_Z (ZoneConfig.screen_width (config self))) ;;
            ry <- div (inject_Z (ScreenPoint.y last))
                      (inject_Z (ZoneConfig.screen_height (config self))) ;;
            Ok (Some (rx, ry))
        end
    end ;;
  match reference with
  | None => Ok false
  | Some r =>
      let dx := Qabs (fst normalized_pos - fst r) in
      let dy := Qabs (snd normalized_pos - snd r) in
      Ok (ltb dx (ZoneConfig.dead_zone (config self))
          && ltb dy (ZoneConfig.dead_zone (config self)))
  end.




(** [d[key]] on such a dictionary. *)
Fixpoint item (key : string) (d : list (string * bool)) : option bool :=
  match d with
  | [] => None
  | (k, v) :: d' => if String.eqb k key then Some v else item key d'
  end.

End ZoneMapper.

(* ================================================================== *)
(** * The arithmetic of the code: IEEE binary64 *)
(* ================================================================== *)

(** The modules above compute with exact rationals.  That is what the
    code does wherever a property rests on the branches taken and on the
    expressions returned.  It is not what the code does where rounding
    decides: a running sum, a truncation [int(...)] of a blend, an
    overflow.  For those places the methods are embedded a second time,
    over binary64 values: [spec_float] at precision 53 with exponents
    below 1024, every operation rounded to the nearest value, ties to
    even. *)

Module Binary64.

Definition float : Type := spec_float.

Definition prec : Z := 53%Z.
Definition emax : Z := 1024%Z.

Definition add (x y : float) : float := SFadd prec emax x y.
Definition sub (x y : float) : float := SFsub prec emax x y.
Definition mul (x y : float) : float := SFmul prec emax x y.
Definition abs (x : float) : float := SFabs x.

(** Comparisons; all of them are false on a NaN. *)
Definition ltb (x y : float) : bool := SFltb x y.
Definition leb (x y : float) : bool := SFleb x y.
Definition eqb (x y : float) : bool := SFeqb x y.

(** The float nearest to the integer [z]. *)
Definition nearest (z : Z) : float := binary_normalize prec emax z 0%Z false.

Definition zero : float := S754_zero false.
Definition one : float := nearest 1.
Definition two : float := nearest 2.

(** A decimal literal [n / d] with [n] and [d] below [2^53]: the parser
    and the division round the same quotient to nearest. *)
Definition decimal (n d : Z) : float := SFdiv prec emax (nearest n) (nearest d).

Definition half : float := decimal 5 10.

(** An [int] operand of float arithmetic is converted first; an [int] too
    large for a float raises. *)
Definition of_int (z : Z) : result float :=
  match nearest z with
  | S754_infinity _ => Raise OverflowError
  | f => Ok f
  end.

(** [x / y], raising on a zero divisor. *)
Definition div (x y : float) : result float :=
  if eqb y zero then Raise ZeroDivisionError else Ok (SFdiv prec emax x y).

(** [int(x)]: truncation toward zero; infinities and NaN raise. *)
Definition int (x : float) : result Z :=
  match x with
  | S754_zero _ => Ok 0%Z
  | S754_finite s m e =>
      let a := match e with
               | Zneg p => Z.shiftr (Zpos m) (Zpos p)
               | _ => Z.shiftl (Zpos m) e
               end in
      Ok (if s then (- a)%Z else a)
  | S754_infinity _ => Raise OverflowError
  | S754_nan => Raise (ValueError "cannot convert float NaN to integer")
  end.

(** The builtin [min(a, b)] and [max(a, b)]: the first argument wins a tie,
    and stays when the comparison is false. *)
Definition min (a b : float) : float := if ltb b a then b else a.
Definition max (a b : float) : float := if ltb a b then b else a.

(** [not 0.0 <= a <= 1.0] *)
Definition outside_unit (a : float) : bool := negb (leb zero a && leb a one).

Module ExponentialMovingAverage.

Record t : Type := mk {
  alpha : float;
  _value : option float;
  _initialized : bool
}.

(** [__init__(alpha)] *)
Definition init (a : float) : result t :=
  if outside_unit a
  then Raise (ValueError "Alpha must be between 0 and 1")
  else Ok (mk a None false).

(** [update(new_value)] *)
Definition update (new_value : float) (self : t) : result (float * t) :=
  if negb (_initialized self) then
    Ok (new_value, mk (alpha self) (Some new_value) true)
  else
    match _value self with
    | Some prev =>
        let v := add (mul (alpha self) new_value)
                     (mul (sub one (alpha self)) prev) in
        Ok (v, mk (alpha self) (Some v) (_initialized self))
    | None => Raise TypeError
    end.

(** [set_alpha(alpha)] *)
Definition set_alpha (a : float) (self : t) : result t :=
  if outside_unit a
  then Raise (ValueError "Alpha must be between 0 and 1")
  else Ok (mk a (_value self) (_initialized self)).

End ExponentialMovingAverage.

Module MovingAverage.

Record t : Type := mk {
  window_size : Z;
  _values : list float;
  _sum : float
}.

(** [__init__(window_size)] *)
Definition init (n : Z) : result t :=
  if (n <? 1)%Z
  then Raise (ValueError "Window size must be at least 1")
  else if (MovingAverage.maxlen_limit <=? n)%Z then Raise OverflowError
  else Ok (mk n [] zero).

(** [deque.append] on a deque bounded by [maxlen]. *)
Definition deque_append (maxlen : Z) (xs : list float) (v : float) : list float :=
  if (maxlen =? 0)%Z then []
  else if (len xs =? maxlen)%Z then List.tl xs ++ [v]
  else xs ++ [v].

(** [update(new_value)] *)
Definition update (new_value : float) (self : t) : result (float * t) :=
  s1 <- (if (len (_values self) =? window_size self)%Z then
           match _values self with
           | oldest :: _ => Ok (sub (_sum self) oldest)
           | [] => Raise IndexError
           end
         else Ok (_sum self)) ;;
  let values := deque_append (window_size self) (_values self) new_value in
  let s2 := add s1 new_value in
  n <- of_int (len values) ;;
  r <- div s2 n ;;
  Ok (r, mk (window_size self) values s2).

Fixpoint run (vs : list float) (self : t) : result (list float * t) :=
  match vs with
  | [] => Ok ([], self)
  | v :: vs' =>
      '(o, self1) <- update v self ;;
      '(os, self2) <- run vs' self1 ;;
      Ok (o :: os, self2)
  end.

End MovingAverage.

Module OneEuroFilter.

Module EMA := ExponentialMovingAverage.

Record t : Type := mk {
  min_cutoff : float;
  beta : float;
  d_cutoff : float;
  _x_filter : option EMA.t;
  _dx_filter : option EMA.t;
  _last_value : option float;
  _last_time : option float
}.

(** [math.pi] *)
Definition math_pi : float := S754_finite false 7074237752028440 (-51).

(** [__init__(min_cutoff, beta, d_cutoff)] *)
Definition init (mc b dc : float) : t := mk mc b dc None None None None.

(** [_alpha(cutoff, dt)] *)
Definition _alpha (cutoff dt : float) : result float :=
  tau <- div one (mul (mul two math_pi) cutoff) ;;
  q <- div tau dt ;;
  div one (add one q).

(** [update(value, timestamp)] *)
Definition update (value timestamp : float) (self : t)
  : result (option float * t) :=
  match _last_time self with
  | None =>
      xf <- EMA.init half ;;
      dxf <- EMA.init half ;;
      Ok (Some value,
          mk (min_cutoff self) (beta self) (d_cutoff self)
             (Some xf) (Some dxf) (Some value) (Some timestamp))
  | Some last_time =>
      let dt := sub timestamp last_time in
      if leb dt zero then Ok (_last_value self, self)
      else
        match _last_value self, _dx_filter self, _x_filter self with
        | None, _, _ => Raise TypeError
        | Some last_value, dx_filter, x_filter =>
            dx <- div (sub value last_value) dt ;;
            d_alpha <- _alpha (d_cutoff self) dt ;;
            match dx_filter with
            | None => Raise AttributeError
            | Some dxf =>
                dxf1 <- EMA.set_alpha d_alpha dxf ;;
                '(dx_hat, dxf2) <- EMA.update dx dxf1 ;;
                let cutoff := add (min_cutoff self)
                                  (mul (beta self) (abs dx_hat)) in
                x_alpha <- _alpha cutoff dt ;;
                match x_filter with
                | None => Raise AttributeError
                | Some xf =>
                    xf1 <- EMA.set_alpha x_alpha xf ;;
                    '(x_hat, xf2) <- EMA.update value xf1 ;;
                    Ok (Some x_hat,
                        mk (min_cutoff self) (beta self) (d_cutoff self)
                           (Some xf2) (Some dxf2) (Some x_hat) (Some timestamp))
                end
            end
        end
  end.

Fixpoint run (samples : list (float * float)) (self : t)
  : result (list (option float) * t) :=
  match samples with
  | [] => Ok ([], self)
  | (v, ts) :: rest =>
      '(o, self1) <- update v ts self ;;
      '(os, self2) <- run rest self1 ;;
      Ok (o :: os, self2)
  end.

End OneEuroFilter.

Module ZoneConfig.

Record t : Type := mk {
  screen_width : Z;
  screen_height : Z;
  sensitivity : float;
  dead_zone : float;
  invert_x : bool;
  invert_y : bool;
  margin : Z;
  smoothing : float;
  zone_columns : Z;
  zone_rows : Z
}.

End ZoneConfig.

Module ZoneMapper.

Record t : Type := mk {
  config : ZoneConfig.t;
  _last_position : option ScreenPoint.t
}.

(** [__init__(config)] *)
Definition init (cfg : ZoneConfig.t) : t := mk cfg None.

(** One axis of [map_position] up to the margin constraint. *)
Definition axis_pixel (invert : bool) (sens : float) (dim margin : Z)
           (v : float) : result Z :=
  let v := if invert then sub one v else v in
  let v := if negb (eqb sens one)
           then add half (mul (sub v half) sens) else v in
  let v := max zero (min one v) in
  d <- of_int dim ;;
  screen <- int (mul v d) ;;
  Ok (Z.max margin (Z.min (dim - margin) screen)).

(** The blend of the optional smoothing, on one axis. *)
Definition blend (s : float) (screen last : Z) : result Z :=
  let alpha := sub one s in
  fs <- of_int screen ;;
  fl <- of_int last ;;
  int (add (mul alpha fs) (mul s fl)).

(** [map_position(normalized_pos)] *)
Definition map_position (normalized_pos : float * float) (self : t)
  : result (ScreenPoint.t * t) :=
  let cfg := config self in
  let '(x, y) := normalized_pos in
  let margin := ZoneConfig.margin cfg in
  screen_x <- axis_pixel (ZoneConfig.invert_x cfg) (ZoneConfig.sensitivity cfg)
                (ZoneConfig.screen_width cfg) margin x ;;
  screen_y <- axis_pixel (ZoneConfig.invert_y cfg) (ZoneConfig.sensitivity cfg)
                (ZoneConfig.screen_height cfg) margin y ;;
  position <-
    match _last_position self with
    | Some last =>
        if ltb zero (ZoneConfig.smoothing cfg) then
          bx <- blend (ZoneConfig.smoothing cfg) screen_x (ScreenPoint.x last) ;;
          by_ <- blend (ZoneConfig.smoothing cfg) screen_y (ScreenPoint.y last) ;;
          Ok (ScreenPoint.mk bx by_)
        else Ok (ScreenPoint.mk screen_x screen_y)
    | None => Ok (ScreenPoint.mk screen_x screen_y)
    end ;;
  Ok (position, mk cfg (Some position)).

(** Successive calls on one mapper, collecting the returned points. *)
Fixpoint run (ps : list (float * float)) (self : t)
  : result (list ScreenPoint.t) :=
  match ps with
  | [] => Ok []
  | p :: ps' =>
      '(pt, self') <- map_position p self ;;
      pts <- run ps' self' ;;
      Ok (pt :: pts)
  end.

End ZoneMapper.

End Binary64.

(* ================================================================== *)
(** * Vocabulary of the statements *)
(* ================================================================== *)

Module EMA := ExponentialMovingAverage.
Module MA := MovingAverage.
Module DES := DoubleExponentialSmoothing.
Module OEF := OneEuroFilter.

(** The outputs of an initialised exponential moving average whose previous
    output is [p]. *)
Fixpoint ema_outputs (a p : Q) (ws : list Q) : list Q :=
  match ws with
  | [] => []
  | w :: ws' =>
      let o := a * w + (1 - a) * p in
      o :: ema_outputs a o ws'
  end.

(** Sum and arithmetic mean of a list of floats. *)
Definition total (xs : list Q) : Q := fold_right Qplus 0 xs.

Definition mean (xs : list Q) : Q := total xs / inject_Z (len xs).

(** The last [n] elements of a list (all of it when it is shorter). *)
Definition lastn {A} (n : nat) (xs : list A) : list A :=
  rev (firstn n (rev xs)).

(** A screen point lies within the margins of the configured screen. *)
Definition within_margins (cfg : ZoneConfig.t) (p : ScreenPoint.t) : Prop :=
  (ZoneConfig.margin cfg <= ScreenPoint.x p
     <= ZoneConfig.screen_width cfg - ZoneConfig.margin cfg)%Z
  /\ (ZoneConfig.margin cfg <= ScreenPoint.y p
     <= ZoneConfig.screen_height cfg - ZoneConfig.margin cfg)%Z.

(** The pixel [map_position] computes from the new sample alone, before the
    optional smoothing. *)
Definition new_screen (cfg : ZoneConfig.t) (pos : Q * Q) : ScreenPoint.t :=
  ScreenPoint.mk
    (ZoneMapper.axis_pixel (ZoneConfig.invert_x cfg) (ZoneConfig.sensitivity cfg)
       (ZoneConfig.screen_width cfg) (ZoneConfig.margin cfg) (fst pos))
    (ZoneMapper.axis_pixel (ZoneConfig.invert_y cfg) (ZoneConfig.sensitivity cfg)
       (ZoneConfig.screen_height cfg) (ZoneConfig.margin cfg) (snd pos)).

(** What the object holds after the inputs [h]: the last [window_size] of
    them, and their sum. *)
Definition ma_holds (N : Z) (h : list Q) (s : MA.t) : Prop :=
  MA.window_size s = N
  /\ MA._values s = lastn (Z.to_nat N) h
  /\ MA._sum s == total (MA._values s).

(** The object has taken a sample: time and value are both stored, and the
    stored value is [o]. *)
Definition oef_seeded (f : OEF.t) (o : option Q) : Prop :=
  exists lv lt,
    OEF._last_value f = Some lv /\ OEF._last_time f = Some lt /\ o = Some lv.

(** The point the mapper remembers, if any, lies within the margins. *)
Definition last_within_margins (cfg : ZoneConfig.t) (self : ZoneMapper.t) : Prop :=
  match ZoneMapper._last_position self with
  | Some p => within_margins cfg p
  | None => True
  end.


Module PD := PinchDetector.

(** The debounce rule read literally: a detector that is [IDLE] after the
    calls [h] is triggered by [update(distance)] exactly when the distance
    is below the threshold and more than [debounce_ms] have passed since the
    most recent [RELEASED -> IDLE] update (no condition on the time when
    there was none). *)
Definition debounce_since_idle_again
  (thr : Q) (deb hold : Z) (h : list PD.call) (now distance : Q) : Prop :=
  let d0 := PD.init thr deb hold in
  let d := PD.run h d0 in
  PD._state d = IDLE ->
  (PD._state (PD.update now distance d) = TRIGGERED
   <-> distance < thr
       /\ match PD.left_released_at h d0 None with
          | Some t => inject_Z deb < now * 1000 - t
          | None => True
          end).

(** A click: the pinch is seen at second 1700000000 of the clock, its
    release 0.1 s later, and the next frame comes 0.25 s after the start. *)
Definition one_click : list PD.call :=
  [PD.Update 1700000000 (3 # 100);
   PD.Update (1700000000 + (1 # 10)) (1 # 10);
   PD.Update (1700000000 + (25 # 100)) (1 # 10)].

Module GE := GestureEngine.

(** The gesture types [process] hands out. *)
Definition emitted (ty : GestureType) : Prop :=
  ty = CURSOR_MOVE \/ ty = LEFT_CLICK \/ ty = RIGHT_CLICK
  \/ ty = DRAG_START \/ ty = DRAG_MOVE \/ ty = DRAG_END.

(** A square root truncated to six decimals, for running examples; it is
    exact on the distances that occur in them. *)
Definition sqrt6 (q : Q) : Q :=
  Z.sqrt (Qnum q * 1000000000000 / Zpos (Qden q)) # 1000000.

(** A hand with the three tracked fingertips at the given places (all other
    landmarks at the origin), as the test suite builds them. *)
Definition hand_with (thumb index middle : Point3D.t) : HandData.t :=
  let o := Point3D.mk 0 0 0 in
  HandData.mk
    [o; o; o; o; thumb; o; o; o; index; o; o; o; middle; o; o; o; o; o; o; o; o]
    "Right" (9 # 10) true.

Definition open_hand : HandData.t :=
  hand_with (Point3D.mk (1 # 2) (1 # 2) 0) (Point3D.mk (7 # 10) (1 # 2) 0)
            (Point3D.mk (8 # 10) (1 # 2) 0).

Definition pinching_hand : HandData.t :=
  hand_with (Point3D.mk (1 # 2) (1 # 2) 0) (Point3D.mk (52 # 100) (1 # 2) 0)
            (Point3D.mk (8 # 10) (1 # 2) 0).

(** [HandData(is_valid=False)] *)
Definition no_hand : HandData.t := HandData.mk [] "Unknown" 0 false.

(** All clock readings of a call at the same instant. *)
Definition at_time (t : Q) : GE.clock := GE.mk_clock t t t.

(** Open hand, pinch, pinch held for 0.4 s, then the hand is lost. *)
Definition drag_then_hand_lost : list (GE.clock * HandData.t) :=
  [(at_time 1700000000, open_hand);
   (at_time (1700000000 + (1 # 10)), pinching_hand);
   (at_time (1700000000 + (5 # 10)), pinching_hand);
   (at_time (1700000000 + (6 # 10)), no_hand)].

(** Type and position of each gesture of a list. *)
Definition summary (gs : list Gesture.t) : list (GestureType * (Q * Q)) :=
  map (fun g => (Gesture.type g, Gesture.position g)) gs.

(** The clock reading, in milliseconds, of the most recent [update] in [h]
    that took the detector from [IDLE] to [TRIGGERED]; [acc] if there is
    none. *)
Fixpoint triggered_at (h : list PD.call) (self : PD.t) (acc : option Q)
  : option Q :=
  match h with
  | [] => acc
  | c :: h' =>
      let self' := PD.step c self in
      let acc' :=
        match c with
        | PD.Update now _ =>
            if GestureState_eqb (PD._state self) IDLE
               && GestureState_eqb (PD._state self') TRIGGERED
            then Some (now * 1000) else acc
        | PD.Reset => acc
        end in
      triggered_at h' self' acc'
  end.

(** A pinch that starts at second 1700000000 of the clock. *)
Definition pinch_started : list PD.call := [PD.Update 1700000000 (3 # 100)].

(** The order in which drag gestures may come, [dragging] telling whether
    a drag is open: [DRAG_START] opens one when none is open; [DRAG_MOVE]
    and [DRAG_END] need an open one, and [DRAG_END] closes it; [LEFT_CLICK]
    needs none open.  The result is whether a drag is open at the end, or
    [None] when the order is broken. *)
Fixpoint drag_protocol (dragging : bool) (tys : list GestureType) : option bool :=
  match tys with
  | [] => Some dragging
  | ty :: tys' =>
      match ty with
      | DRAG_START => if dragging then None else drag_protocol true tys'
      | DRAG_MOVE => if dragging then drag_protocol true tys' else None
      | DRAG_END => if dragging then drag_protocol false tys' else None
      | LEFT_CLICK => if dragging then None else drag_protocol false tys'
      | _ => drag_protocol dragging tys'
      end
  end.

(** The types of everything handed to the callbacks along a run. *)
Definition dispatched_types (os : list GE.outcome) : list GestureType :=
  map Gesture.type (flat_map GE.dispatched os).

(** The engine at the end of a run that started from [e]. *)
Definition final_engine (os : list GE.outcome) (e : GE.t) : GE.t :=
  last (map GE.engine os) e.

(** The cursor position [process] takes from a hand: the index tip. *)
Definition cursor_of (index_tip : Point3D.t) : Q * Q :=
  (Point3D.x index_tip, Point3D.y index_tip).

(** The drag flag of the engine is up exactly while the thumb-index
    detector is [HOLDING]. *)
Definition dragging_iff_holding (e : GE.t) : Prop :=
  GE._is_dragging e = true <-> PD._state (GE._left_pinch e) = HOLDING.

(** A drag: open hand, pinch, pinch held 0.4 s, release (default
    configuration, clock in seconds). *)
Definition drag_and_drop : list (GE.clock * HandData.t) :=
  [(at_time 1700000000, open_hand);
   (at_time (1700000000 + (1 # 10)), pinching_hand);
   (at_time (1700000000 + (5 # 10)), pinching_hand);
   (at_time (1700000000 + (6 # 10)), open_hand)].

(** The fingertips of [pinching_hand]. *)
Definition thumb_at_centre : Point3D.t := Point3D.mk (1 # 2) (1 # 2) 0.
Definition index_near_thumb : Point3D.t := Point3D.mk (52 # 100) (1 # 2) 0.
Definition middle_away : Point3D.t := Point3D.mk (8 # 10) (1 # 2) 0.

(** A new engine with the default configuration that has seen an open
    hand. *)
Definition engine_after_open_hand : GE.t :=
  GE.after sqrt6 [GE.Frame (at_time 1700000000) open_hand]
    (GE.init GestureConfig.default).

(** A hand flagged valid that carries no landmark. *)
Definition hand_without_landmarks : HandData.t := HandData.mk [] "Right" 1 true.


Module HT := HandTracker.

(** A landmark smoothed against the landmark of the frame before. *)
Definition blend_point (a : Q) (previous new : Point3D.t) : Point3D.t :=
  Point3D.mk (a * Point3D.x new + (1 - a) * Point3D.x previous)
             (a * Point3D.y new + (1 - a) * Point3D.y previous)
             (a * Point3D.z new + (1 - a) * Point3D.z previous).

(** Pairwise [blend_point] of two frames. *)
Fixpoint blend_frames (a : Q) (previous new : list Point3D.t)
  : list Point3D.t :=
  match previous, new with
  | p :: ps, n :: ns => blend_point a p n :: blend_frames a ps ns
  | _, _ => []
  end.

(** The three smoothers of a landmark after they have seen it first. *)
Definition seeded (a : Q) (p : Point3D.t) : list EMA.t :=
  [EMA.mk a (Some (Point3D.x p)) true;
   EMA.mk a (Some (Point3D.y p)) true;
   EMA.mk a (Some (Point3D.z p)) true].

Module B64 := Binary64.

(** The default screen with 6 percent of the weight on the previous
    point: [ZoneConfig(smoothing=0.06)]. *)
Definition six_percent_smoothing : B64.ZoneConfig.t :=
  B64.ZoneConfig.mk 1920 1080 B64.one (B64.decimal 2 100) true false 10
    (B64.decimal 6 100) 3 3.

(** [sum(xs) / len(xs)] in binary64, the sum taken from left to right. *)
Definition float_mean (xs : list B64.float) : result B64.float :=
  n <- B64.of_int (len xs) ;;
  B64.div (fold_left B64.add xs B64.zero) n.

(** The values returned by a new moving average of window [n] fed [vs]. *)
Definition moving_average_outputs (n : Z) (vs : list B64.float)
  : result (list B64.float) :=
  m <- B64.MovingAverage.init n ;;
  '(outs, _) <- B64.MovingAverage.run vs m ;;
  Ok outs.

(** The one-euro filter after its first sample [(v, t)]: both inner
    filters are new, nothing was fed to them. *)
Definition after_first_sample (mc b dc v t : B64.float) : B64.OneEuroFilter.t :=
  B64.OneEuroFilter.mk mc b dc
    (Some (B64.ExponentialMovingAverage.mk B64.half None false))
    (Some (B64.ExponentialMovingAverage.mk B64.half None false))
    (Some v) (Some t).

(** The largest [alpha], [2^-63], whose window [int(1 / alpha)] is too
    long for a [deque]. *)
Definition overflow_alpha : Q := 1 # 9223372036854775808.



(* ================================================================== *)
(** * Properties *)
(* ================================================================== *)

(** ** Comparisons *)

Lemma ltb_true (x y : Q) : ltb x y = true <-> x < y.
Proof.
  unfold ltb. rewrite negb_true_iff. split; intro H.
  - apply Qnot_le_lt. intro L. apply Qle_bool_iff in L. congruence.
  - destruct (Qle_bool y x) eqn:E; trivial.
    apply Qle_bool_iff in E. exfalso. exact (Qlt_not_le _ _ H E).
Qed.

Lemma ltb_false (x y : Q) : ltb x y = false <-> y <= x.
Proof.
  unfold ltb. rewrite negb_false_iff. apply Qle_bool_iff.
Qed.

Lemma leb_true (x y : Q) : leb x y = true <-> x <= y.
Proof. apply Qle_bool_iff. Qed.

Lemma leb_false (x y : Q) : leb x y = false <-> y < x.
Proof.
  unfold leb. split; intro H.
  - apply Qnot_le_lt. intro L. apply Qle_bool_iff in L. congruence.
  - destruct (Qle_bool x y) eqn:E; trivial.
    apply Qle_bool_iff in E. exfalso. exact (Qlt_not_le _ _ H E).
Qed.

Lemma in_unit_true (a : Q) : leb 0 a && leb a 1 = true <-> 0 <= a <= 1.
Proof. rewrite andb_true_iff, !leb_true. tauto. Qed.

Lemma in_unit_false (a : Q) : leb 0 a && leb a 1 = false <-> (a < 0 \/ 1 < a).
Proof. rewrite andb_false_iff, !leb_false. tauto. Qed.

(** ** Construction *)

Lemma ema_init_ok (a : Q) :
  0 <= a <= 1 -> EMA.init a = Ok (EMA.mk a None false).
Proof.
  intro H. unfold EMA.init. apply in_unit_true in H. now rewrite H.
Qed.

Lemma ema_init_raises (a : Q) :
  a < 0 \/ 1 < a ->
  EMA.init a = Raise (ValueError "Alpha must be between 0 and 1").
Proof.
  intro H. unfold EMA.init. apply in_unit_false in H. now rewrite H.
Qed.

Lemma ma_init_ok (n : Z) :
  (1 <= n < MA.maxlen_limit)%Z -> MA.init n = Ok (MA.mk n [] 0).
Proof.
  intro H. unfold MA.init. destruct (Z.ltb_spec n 1); [lia |].
  destruct (Z.leb_spec MA.maxlen_limit n); [lia | reflexivity].
Qed.

(** A moving average that was constructed: it is empty, and its window is
    at least 1 and fits a [deque]. *)
Lemma ma_init_inv (n : Z) (m : MA.t) :
  MA.init n = Ok m -> m = MA.mk n [] 0 /\ (1 <= n < MA.maxlen_limit)%Z.
Proof.
  unfold MA.init. destruct (Z.ltb_spec n 1); [discriminate |].
  destruct (Z.leb_spec MA.maxlen_limit n); [discriminate |].
  intro E. injection E as <-. split; [reflexivity | lia].
Qed.

Lemma ma_init_overflow (n : Z) :
  (MA.maxlen_limit <= n)%Z -> MA.init n = Raise OverflowError.
Proof.
  intro H. unfold MA.init.
  destruct (Z.ltb_spec n 1); [unfold MA.maxlen_limit in H; lia |].
  destruct (Z.leb_spec MA.maxlen_limit n); [reflexivity | lia].
Qed.

Lemma ma_init_raises (n : Z) :
  (n < 1)%Z -> MA.init n = Raise (ValueError "Window size must be at least 1").
Proof.
  intro H. unfold MA.init. destruct (Z.ltb_spec n 1); [reflexivity | lia].
Qed.

(** The constructors that validate raise out of range, and all three
    constructors succeed within range. *)
Lemma validating_constructors :
  (forall a, a < 0 \/ 1 < a -> is_ok (EMA.init a) = false)
  /\ (forall n, (n < 1)%Z -> is_ok (MA.init n) = false)
  /\ (forall a, 0 <= a <= 1 -> is_ok (EMA.init a) = true)
  /\ (forall n, (1 <= n < MA.maxlen_limit)%Z -> is_ok (MA.init n) = true)
  /\ (forall a b, is_ok (DES.init a b) = true).
Proof.
  repeat split; intros.
  - now rewrite ema_init_raises.
  - now rewrite ma_init_raises.
  - now rewrite ema_init_ok.
  - now rewrite ma_init_ok.
Qed.

(** C5, at [DoubleExponentialSmoothing(alpha=1.5, beta=-0.1)]: the
    constructor stores both factors without checking them, where the
    constructor of the exponential moving average raises for the same
    [alpha]. *)
Theorem des_init_does_not_validate :
  DES.init (3 # 2) (- (1 # 10))
    = Ok (DES.mk (3 # 2) (- (1 # 10)) None None false)
  /\ EMA.init (3 # 2) = Raise (ValueError "Alpha must be between 0 and 1").
Proof. split; reflexivity. Qed.

(** ** Exponential moving average *)

(** The example of the test suite: [alpha = 0.5], inputs 10 then 20. *)
Example ema_half :
  exists e, EMA.init (1 # 2) = Ok e /\
  exists outs e', EMA.run [10; 20] e = Ok (outs, e')
    /\ Forall2 Qeq outs [10; 15].
Proof.
  eexists; split; [reflexivity|]. eexists _, _; split; [reflexivity|].
  repeat constructor.
Qed.

Lemma ema_run_seeded (a : Q) (ws : list Q) :
  forall p, exists e',
    EMA.run ws (EMA.mk a (Some p) true) = Ok (ema_outputs a p ws, e').
Proof.
  induction ws as [|w ws IH]; intro p; simpl.
  - eexists; reflexivity.
  - destruct (IH (a * w + (1 - a) * p)) as [e' E].
    unfold bind. cbn. rewrite E. eexists; reflexivity.
Qed.

Lemma ema_outputs_length (a : Q) (ws : list Q) :
  forall p, length (ema_outputs a p ws) = length ws.
Proof. induction ws; intro p; simpl; [reflexivity | now rewrite IHws]. Qed.

Lemma ema_outputs_nth (a : Q) (ws : list Q) :
  forall p k, (k < length ws)%nat ->
    nth k (ema_outputs a p ws) 0
    = a * nth k ws 0 + (1 - a) * nth k (p :: ema_outputs a p ws) 0.
Proof.
  induction ws as [|w ws IH]; intros p k Hk; simpl in Hk; [lia|].
  destruct k as [|k]; [reflexivity|].
  cbn [ema_outputs nth]. rewrite IH by lia. reflexivity.
Qed.

(** C6.  An exponential moving average built with [alpha = a] in [[0,1]],
    fresh from its constructor or from [reset()]: the first [update(v)]
    returns [v]; every later [update(w)] returns [a*w + (1-a)*p], [p] being
    the value the update before it returned.  No update raises. *)
Theorem ema_first_then_blend (a : Q) :
  0 <= a <= 1 ->
  exists e0, EMA.init a = Ok e0 /\
  forall e,
    (e = e0 \/ exists e1, EMA.alpha e1 = a /\ e = EMA.reset e1) ->
    forall v ws, exists outs e',
      EMA.run (v :: ws) e = Ok (outs, e')
      /\ length outs = S (length ws)
      /\ nth 0 outs 0 = v
      /\ forall k, (k < length ws)%nat ->
           nth (S k) outs 0 = a * nth k ws 0 + (1 - a) * nth k outs 0.
Proof.
  intro Ha. exists (EMA.mk a None false). split; [now apply ema_init_ok|].
  intros e He v ws.
  assert (Hfresh : e = EMA.mk a None false).
  { destruct He as [->|[e1 [<- ->]]]; reflexivity. }
  subst e. destruct (ema_run_seeded a ws v) as [e' E].
  exists (v :: ema_outputs a v ws), e'. repeat split.
  - cbn. unfold bind. cbn in E. rewrite E. reflexivity.
  - simpl. now rewrite ema_outputs_length.
  - intros k Hk. cbn [nth]. now apply ema_outputs_nth.
Qed.

Lemma ema_first_then_blend_witness :
  0 <= (1 # 2) <= 1 /\
  exists e0, EMA.init (1 # 2) = Ok e0 /\
  forall e,
    (e = e0 \/ exists e1, EMA.alpha e1 = (1 # 2) /\ e = EMA.reset e1) ->
    forall v ws, exists outs e',
      EMA.run (v :: ws) e = Ok (outs, e')
      /\ length outs = S (length ws)
      /\ nth 0 outs 0 = v
      /\ forall k, (k < length ws)%nat ->
           nth (S k) outs 0 = (1 # 2) * nth k ws 0 + (1 - (1 # 2)) * nth k outs 0.
Proof.
  assert (H : 0 <= (1 # 2) <= 1) by (split; discriminate).
  split; [exact H | exact (ema_first_then_blend (1 # 2) H)].
Defined.

(** ** Windowed moving average *)

Lemma total_snoc (xs : list Q) (v : Q) : total (xs ++ [v]) == total xs + v.
Proof.
  unfold total. induction xs as [|x xs IH]; simpl.
  - ring.
  - rewrite IH. ring.
Qed.

Lemma firstn_succ_snoc {A} (n : nat) :
  forall r : list A, (n < length r)%nat ->
    exists x, firstn (S n) r = firstn n r ++ [x].
Proof.
  induction n as [|n IH]; intros [|a r] H; simpl in H; try lia.
  - exists a. reflexivity.
  - destruct (IH r) as [x E]; [lia|]. exists x.
    change (firstn (S (S n)) (a :: r)) with (a :: firstn (S n) r).
    rewrite E. reflexivity.
Qed.

Lemma lastn_length {A} (n : nat) (xs : list A) :
  length (lastn n xs) = Nat.min n (length xs).
Proof.
  unfold lastn. now rewrite length_rev, length_firstn, length_rev.
Qed.

Lemma lastn_snoc {A} (n : nat) (h : list A) (v : A) :
  lastn (S n) (h ++ [v]) = lastn n h ++ [v].
Proof.
  unfold lastn. rewrite rev_app_distr. reflexivity.
Qed.

(** Dropping the oldest element of a full window. *)
Lemma lastn_pred {A} (n : nat) (h : list A) :
  lastn n h = if (length (lastn (S n) h) =? S n)%nat
              then tl (lastn (S n) h) else lastn (S n) h.
Proof.
  rewrite lastn_length. unfold lastn.
  destruct (Nat.eqb_spec (Nat.min (S n) (length h)) (S n)) as [E|E].
  - destruct (firstn_succ_snoc n (rev h)) as [x Hx].
    { rewrite length_rev. lia. }
    rewrite Hx, rev_app_distr. reflexivity.
  - rewrite !firstn_all2; trivial; rewrite length_rev; lia.
Qed.

Lemma inject_Z_len_nonzero {A} (xs : list A) :
  xs <> [] -> eqb (inject_Z (len xs)) 0 = false.
Proof.
  intro H. unfold eqb. destruct (Qeq_bool (inject_Z (len xs)) 0) eqn:E; trivial.
  apply Qeq_bool_iff in E. unfold Qeq, len in E. simpl in E.
  destruct xs; [congruence | simpl in E; lia].
Qed.

Lemma ma_update_step (N : Z) (h : list Q) (s : MA.t) (v : Q) :
  (1 <= N)%Z -> ma_holds N h s ->
  exists r s',
    MA.update v s = Ok (r, s')
    /\ r == mean (lastn (Z.to_nat N) (h ++ [v]))
    /\ ma_holds N (h ++ [v]) s'.
Proof.
  intros HN (Hw & Hv & Hs).
  destruct (Z.to_nat N) as [|n] eqn:En; [lia|].
  assert (HNn : N = Z.of_nat (S n)) by lia.
  rewrite lastn_snoc. unfold MA.update, MA.deque_append.
  rewrite Hw. destruct (Z.eqb_spec N 0) as [|_]; [lia|].
  pose proof (lastn_pred n h) as Hp. rewrite <- Hv in Hp.
  destruct (Z.eqb_spec (len (MA._values s)) N) as [Efull|Enot].
  - assert (El : length (MA._values s) = S n) by (unfold len in Efull; lia).
    rewrite El, Nat.eqb_refl in Hp.
    destruct (MA._values s) as [|oldest rest] eqn:Evals; [discriminate|].
    simpl in Hp. cbn [bind tl]. unfold div.
    rewrite inject_Z_len_nonzero by (now destruct rest).
    cbn [bind]. eexists _, _. split; [reflexivity|].
    assert (Hsum : MA._sum s - oldest + v == total (rest ++ [v])).
    { rewrite total_snoc, Hs. unfold total. simpl. ring. }
    split.
    + unfold mean. rewrite Hp, Hsum. reflexivity.
    + repeat split; cbn; try rewrite En, lastn_snoc; try congruence.
      exact Hsum.
  - assert (El : (length (MA._values s) =? S n)%nat = false).
    { apply Nat.eqb_neq. unfold len in Enot. lia. }
    rewrite El in Hp. cbn [bind]. unfold div.
    rewrite inject_Z_len_nonzero by (now destruct (MA._values s)).
    cbn [bind]. eexists _, _. split; [reflexivity|].
    assert (Hsum : MA._sum s + v == total (MA._values s ++ [v])).
    { rewrite total_snoc, Hs. reflexivity. }
    split.
    + unfold mean. rewrite Hp, Hsum. reflexivity.
    + repeat split; cbn; try rewrite En, lastn_snoc; try congruence.
      exact Hsum.
Qed.

(** With an exact running sum every returned value is the mean of the
    window.  The bookkeeping of the window holds in the code as well; the
    mean does not, see the properties decided by rounding. *)
Lemma ma_run_holds (N : Z) :
  (1 <= N)%Z ->
  forall vs h s, ma_holds N h s ->
  exists outs s',
    MA.run vs s = Ok (outs, s')
    /\ ma_holds N (h ++ vs) s'
    /\ length outs = length vs
    /\ forall k, (k < length vs)%nat ->
         nth k outs 0 == mean (lastn (Z.to_nat N) (h ++ firstn (S k) vs)).
Proof.
  intro HN. induction vs as [|v vs IH]; intros h s Hinv.
  - exists [], s. rewrite app_nil_r.
    split; [reflexivity|]. split; [exact Hinv|]. split; [reflexivity|].
    simpl. intros k Hk. lia.
  - destruct (ma_update_step N h s v HN Hinv) as (r & s1 & E1 & Hr & Hinv1).
    destruct (IH (h ++ [v]) s1 Hinv1) as (outs & s2 & E2 & Hinv2 & Hlen & Hnth).
    exists (r :: outs), s2. cbn [MA.run]. rewrite E1. cbn [bind]. rewrite E2.
    cbn [bind]. rewrite <- app_assoc in Hinv2.
    split; [reflexivity|]. split; [exact Hinv2|]. split.
    + simpl. now rewrite Hlen.
    + intros [|k] Hk.
      * exact Hr.
      * cbn [nth]. rewrite Hnth by (simpl in Hk; lia).
        now rewrite <- app_assoc.
Qed.

(** The example of the test suite: window 3, inputs 10, 20, 30, 40. *)
Example ma_sliding_window :
  exists m, MA.init 3 = Ok m /\
  exists outs m', MA.run [10; 20; 30; 40] m = Ok (outs, m')
    /\ Forall2 Qeq outs [10; 15; 20; 30].
Proof.
  eexists; split; [reflexivity|]. eexists _, _; split; [reflexivity|].
  repeat constructor.
Qed.

(** ** One-euro filter *)

Ltac bind_cases H :=
  repeat match type of H with
  | bind ?m _ = Ok _ =>
      let E := fresh "E" in
      destruct m as [?|?] eqn:E; cbn [bind] in H; [|discriminate H]
  | (let '(_, _) := ?p in _) = Ok _ => destruct p
  | match ?o with Some _ => _ | None => _ end = Ok _ =>
      destruct o; [|discriminate H]
  end.

Lemma oef_update_seeds (v ts : Q) (f f' : OEF.t) (o : option Q) :
  (OEF._last_time f = None \/ exists o0, oef_seeded f o0) ->
  OEF.update v ts f = Ok (o, f') -> oef_seeded f' o.
Proof.
  intros Hf H. unfold OEF.update in H.
  destruct (OEF._last_time f) as [lt|] eqn:Elt.
  - destruct Hf as [Hf|[o0 (lv & lt' & Hlv & Hlt & Ho0)]]; [discriminate|].
    destruct (leb (ts - lt) 0).
    + injection H as <- <-. exists lv, lt. auto.
    + rewrite Hlv in H. bind_cases H. bind_cases H.
      injection H as <- <-. eexists _, _. cbn. auto.
  - bind_cases H. injection H as <- <-. eexists _, _. cbn. auto.
Qed.

Lemma oef_run_seeds (samples : list (Q * Q)) :
  forall f outs f',
    (OEF._last_time f = None \/ exists o0, oef_seeded f o0) ->
    samples <> [] ->
    OEF.run samples f = Ok (outs, f') ->
    oef_seeded f' (last outs None) /\ length outs = length samples.
Proof.
  induction samples as [|[v ts] rest IH]; intros f outs f' Hf Hne H;
    [congruence|].
  cbn [OEF.run] in H.
  destruct (OEF.update v ts f) as [[o f1]|] eqn:E1; cbn [bind] in H;
    [|discriminate].
  pose proof (oef_update_seeds v ts f f1 o Hf E1) as Hseed.
  destruct rest as [|s rest'].
  - cbn in H. injection H as <- <-. split; [exact Hseed | reflexivity].
  - destruct (OEF.run (s :: rest') f1) as [[os f2]|] eqn:E2; cbn [bind] in H;
      [|discriminate].
    injection H as <- <-.
    destruct (IH f1 os f2) as [Hs Hl]; eauto; [congruence|].
    assert (os <> []) by (destruct os; [discriminate | congruence]).
    split.
    + destruct os; [congruence | exact Hs].
    + simpl. now rewrite Hl.
Qed.

(** C8.  A one-euro filter that has processed at least one sample holds the
    time of the last accepted one; an [update(value, timestamp)] whose
    timestamp is not later than it returns the value the previous update
    returned, which is a number, returns the object as it was, and does not
    raise. *)
Theorem oef_nonpositive_dt
  (mc b dc : Q) (samples : list (Q * Q)) (f0 f : OEF.t)
  (outs : list (option Q)) :
  samples <> [] ->
  OEF.init mc b dc = Ok f0 ->
  OEF.run samples f0 = Ok (outs, f) ->
  exists last_output last_time,
    last outs None = Some last_output
    /\ OEF._last_time f = Some last_time
    /\ forall value timestamp,
         timestamp - last_time <= 0 ->
         OEF.update value timestamp f = Ok (Some last_output, f).
Proof.
  intros Hne Hinit Hrun. injection Hinit as <-.
  destruct (oef_run_seeds samples (OEF.mk mc b dc None None None None) outs f)
    as [(lv & lt & Hlv & Hlt & Ho) _];
    [left; reflexivity | exact Hne | exact Hrun |].
  exists lv, lt. split; [exact Ho|]. split; [exact Hlt|].
  intros value timestamp Hdt. unfold OEF.update. rewrite Hlt.
  apply leb_true in Hdt. rewrite Hdt, Hlv. reflexivity.
Qed.

Lemma oef_nonpositive_dt_witness :
  exists f,
    OEF.run [(10, 0); (20, 1)] (OEF.mk 1 (7 # 1000) 1 None None None None)
      = Ok ([Some 10; Some 20], f)
    /\ exists last_output last_time,
         last [Some 10; Some 20] None = Some last_output
         /\ OEF._last_time f = Some last_time
         /\ forall value timestamp,
              timestamp - last_time <= 0 ->
              OEF.update value timestamp f = Ok (Some last_output, f).
Proof.
  eexists. split; [vm_compute; reflexivity|].
  refine (oef_nonpositive_dt 1 (7 # 1000) 1 [(10, 0); (20, 1)] _ _ _ _ _ _).
  - discriminate.
  - reflexivity.
  - vm_compute; reflexivity.
Defined.

(** ** Reset *)

Lemma ma_update_window (v : Q) (m m' : MA.t) (r : Q) :
  MA.update v m = Ok (r, m') -> MA.window_size m' = MA.window_size m.
Proof.
  unfold MA.update. intro H. bind_cases H. injection H as _ <-. reflexivity.
Qed.

Lemma ma_run_window (vs : list Q) :
  forall m outs m',
    MA.run vs m = Ok (outs, m') -> MA.window_size m' = MA.window_size m.
Proof.
  induction vs as [|v vs IH]; intros m outs m' H; cbn [MA.run] in H.
  - now injection H as _ <-.
  - destruct (MA.update v m) as [[o m1]|] eqn:E1; cbn [bind] in H;
      [|discriminate].
    destruct (MA.run vs m1) as [[os m2]|] eqn:E2; cbn [bind] in H;
      [|discriminate].
    injection H as _ <-. rewrite (IH _ _ _ E2). eapply ma_update_window; eauto.
Qed.

Lemma ma_reset_update (m : MA.t) (v : Q) :
  (1 <= MA.window_size m)%Z ->
  MA.update v (MA.reset m)
    = Ok ((0 + v) / inject_Z 1, MA.mk (MA.window_size m) [v] (0 + v)).
Proof.
  intro H. unfold MA.update, MA.reset, MA.deque_append.
  cbn [MA._values MA.window_size MA._sum].
  change (len (@nil Q)) with 0%Z.
  destruct (Z.eqb_spec 0 (MA.window_size m)); [lia|].
  destruct (Z.eqb_spec (MA.window_size m) 0); [lia|].
  reflexivity.
Qed.

(** C9.  For each of the four smoothers and whatever the object went
    through before, [reset()] followed by [update(v)] returns [v]: the very
    value for the exponential moving average and the one-euro filter (at any
    timestamp), a float equal to it for the moving average ([(0.0 + v) / 1])
    and the double-exponential smoother ([v + 0.0]). *)
Theorem reset_then_update_returns_input :
  (forall (e : EMA.t) (v : Q),
      exists e', EMA.update v (EMA.reset e) = Ok (v, e'))
  /\ (forall (N : Z) (m0 m : MA.t) (history outs : list Q) (v : Q),
      MA.init N = Ok m0 ->
      MA.run history m0 = Ok (outs, m) ->
      exists r m', MA.update v (MA.reset m) = Ok (r, m') /\ r == v)
  /\ (forall (d : DES.t) (v : Q),
      exists r d', DES.update v (DES.reset d) = Ok (r, d') /\ r == v)
  /\ (forall (f : OEF.t) (v timestamp : Q),
      exists f', OEF.update v timestamp (OEF.reset f) = Ok (Some v, f')).
Proof.
  split; [|split; [|split]].
  - intros e v. eexists. reflexivity.
  - intros N m0 m history outs v Hinit Hrun.
    assert (HN : (1 <= MA.window_size m)%Z).
    { rewrite (ma_run_window _ _ _ _ Hrun).
      destruct (ma_init_inv N m0 Hinit) as [-> H]. cbn. lia. }
    rewrite (ma_reset_update m v HN). eexists _, _.
    split; [reflexivity|]. unfold Qdiv. change (/ inject_Z 1) with 1. ring.
  - intros d v. eexists _, _. split; [reflexivity|]. ring.
  - intros f v timestamp. eexists. reflexivity.
Qed.

Lemma reset_then_update_returns_input_witness :
  exists m,
    MA.init 2 = Ok (MA.mk 2 [] 0)
    /\ MA.run [10; 20; 40] (MA.mk 2 [] 0) = Ok ([10; 30 # 2; 60 # 2], m)
    /\ exists r m', MA.update 7 (MA.reset m) = Ok (r, m') /\ r == 7.
Proof.
  eexists. split; [reflexivity|]. split; [vm_compute; reflexivity|].
  refine (proj1 (proj2 reset_then_update_returns_input)
            2%Z (MA.mk 2 [] 0) _ [10; 20; 40] _ 7 _ _).
  - reflexivity.
  - vm_compute; reflexivity.
Defined.

(** ** Zone mapper *)

Lemma int_between (q : Q) (lo hi : Z) :
  inject_Z lo <= q -> q <= inject_Z hi -> (lo <= int q <= hi)%Z.
Proof.
  unfold Qle, int. destruct q as [n d]. simpl. intros Hlo Hhi. split.
  - apply Z.quot_le_lower_bound; lia.
  - apply Z.quot_le_upper_bound; lia.
Qed.

Lemma axis_pixel_between (invert : bool) (sens : Q) (dim margin : Z) (v : Q) :
  (2 * margin <= dim)%Z ->
  (margin <= ZoneMapper.axis_pixel invert sens dim margin v <= dim - margin)%Z.
Proof. intro H. unfold ZoneMapper.axis_pixel. lia. Qed.

Lemma Qmult_le_nonneg_l (c x y : Q) : 0 <= c -> x <= y -> c * x <= c * y.
Proof.
  intros Hc Hxy. rewrite (Qmult_comm c x), (Qmult_comm c y).
  now apply Qmult_le_compat_r.
Qed.

Lemma blend_between (s : Q) (lo hi a b : Z) :
  0 <= s <= 1 -> (lo <= a <= hi)%Z -> (lo <= b <= hi)%Z ->
  (lo <= ZoneMapper.blend s a b <= hi)%Z.
Proof.
  intros [Hs0 Hs1] [Ha1 Ha2] [Hb1 Hb2]. unfold ZoneMapper.blend.
  rewrite Zle_Qle in Ha1, Ha2, Hb1, Hb2.
  assert (H1s : 0 <= 1 - s) by lra.
  apply int_between.
  - setoid_replace (inject_Z lo)
      with ((1 - s) * inject_Z lo + s * inject_Z lo) by ring.
    apply Qplus_le_compat; apply Qmult_le_nonneg_l; assumption.
  - setoid_replace (inject_Z hi)
      with ((1 - s) * inject_Z hi + s * inject_Z hi) by ring.
    apply Qplus_le_compat; apply Qmult_le_nonneg_l; assumption.
Qed.

Section ZoneMapperBounds.

Variable cfg : ZoneConfig.t.
Hypothesis smoothing_in_unit : 0 <= ZoneConfig.smoothing cfg <= 1.
Hypothesis margin_width :
  (2 * ZoneConfig.margin cfg <= ZoneConfig.screen_width cfg)%Z.
Hypothesis margin_height :
  (2 * ZoneConfig.margin cfg <= ZoneConfig.screen_height cfg)%Z.

Lemma new_screen_within_margins (pos : Q * Q) :
  within_margins cfg (new_screen cfg pos).
Proof.
  split; cbn [new_screen ScreenPoint.x ScreenPoint.y];
    now apply axis_pixel_between.
Qed.

Lemma map_position_within_margins (pos : Q * Q) (self : ZoneMapper.t) :
  ZoneMapper.config self = cfg ->
  last_within_margins cfg self ->
  within_margins cfg (fst (ZoneMapper.map_position pos self))
  /\ ZoneMapper.config (snd (ZoneMapper.map_position pos self)) = cfg
  /\ last_within_margins cfg (snd (ZoneMapper.map_position pos self)).
Proof.
  intros Hcfg Hlast. unfold ZoneMapper.map_position. rewrite Hcfg.
  destruct pos as [x y]. cbn [fst snd ZoneMapper.config].
  unfold last_within_margins in *. cbn [ZoneMapper._last_position].
  pose proof (new_screen_within_margins (x, y)) as [Hx Hy].
  cbn [new_screen ScreenPoint.x ScreenPoint.y fst snd] in Hx, Hy.
  assert (Hpt : within_margins cfg
            match ZoneMapper._last_position self with
            | Some last =>
                if ltb 0 (ZoneConfig.smoothing cfg)
                then ScreenPoint.mk
                       (ZoneMapper.blend (ZoneConfig.smoothing cfg)
                          (ZoneMapper.axis_pixel (ZoneConfig.invert_x cfg)
                             (ZoneConfig.sensitivity cfg)
                             (ZoneConfig.screen_width cfg)
                             (ZoneConfig.margin cfg) x)
                          (ScreenPoint.x last))
                       (ZoneMapper.blend (ZoneConfig.smoothing cfg)
                          (ZoneMapper.axis_pixel (ZoneConfig.invert_y cfg)
                             (ZoneConfig.sensitivity cfg)
                             (ZoneConfig.screen_height cfg)
                             (ZoneConfig.margin cfg) y)
                          (ScreenPoint.y last))
                else ScreenPoint.mk
                       (ZoneMapper.axis_pixel (ZoneConfig.invert_x cfg)
                          (ZoneConfig.sensitivity cfg)
                          (ZoneConfig.screen_width cfg)
                          (ZoneConfig.margin cfg) x)
                       (ZoneMapper.axis_pixel (ZoneConfig.invert_y cfg)
                          (ZoneConfig.sensitivity cfg)
                          (ZoneConfig.screen_height cfg)
                          (ZoneConfig.margin cfg) y)
            | None =>
                ScreenPoint.mk
                  (ZoneMapper.axis_pixel (ZoneConfig.invert_x cfg)
                     (ZoneConfig.sensitivity cfg)
                     (ZoneConfig.screen_width cfg)
                     (ZoneConfig.margin cfg) x)
                  (ZoneMapper.axis_pixel (ZoneConfig.invert_y cfg)
                     (ZoneConfig.sensitivity cfg)
                     (ZoneConfig.screen_height cfg)
                     (ZoneConfig.margin cfg) y)
            end).
  { destruct (ZoneMapper._last_position self) as [last|].
    - destruct Hlast as [Hlx Hly].
      destruct (ltb 0 (ZoneConfig.smoothing cfg)).
      + split; cbn [ScreenPoint.x ScreenPoint.y];
          apply blend_between; assumption.
      + split; assumption.
    - split; assumption. }
  auto.
Qed.

(** With exact arithmetic the mapper would stay within the margins over any
    sequence of calls: the blend of two pixels within the margins is a
    convex combination of them.  The binary64 blend of the code does not
    keep this, see the properties decided by rounding. *)
Lemma run_within_margins (ps : list (Q * Q)) :
  forall self,
    ZoneMapper.config self = cfg ->
    last_within_margins cfg self ->
    Forall (within_margins cfg) (ZoneMapper.run ps self).
Proof.
  induction ps as [|p ps IH]; intros self Hcfg Hlast; cbn [ZoneMapper.run].
  - constructor.
  - destruct (map_position_within_margins p self Hcfg Hlast) as (H1 & H2 & H3).
    destruct (ZoneMapper.map_position p self) as [pt self'].
    constructor; [exact H1 | now apply IH].
Qed.

End ZoneMapperBounds.

(** The documented example: the centre of the frame maps to the centre of a
    1920x1080 screen under the default configuration. *)
Example map_position_centre :
  fst (ZoneMapper.map_position (1 # 2, 1 # 2) (ZoneMapper.init ZoneConfig.default))
  = ScreenPoint.mk 960 540.
Proof. reflexivity. Qed.



(** ** Pinch detector *)

(** Case analysis along the branches of [update]. *)
Ltac pinch_cases d :=
  cbn [PD._state PD._is_pinched PD._pinch_start_time PD.threshold
       PD.debounce_ms PD.hold_ms PD._last_trigger_time];
  destruct (PD._state d);
  repeat match goal with
  | |- context [if ltb ?a ?b then _ else _] => destruct (ltb a b)
  | |- context [if negb (ltb ?a ?b) then _ else _] => destruct (ltb a b)
  | |- context [if truthy ?o then _ else _] => destruct (truthy o)
  | |- context [match PD._pinch_start_time d with
                | Some _ => _ | None => _ end] =>
      destruct (PD._pinch_start_time d)
  end;
  cbn [PD._state PD._is_pinched PD._pinch_start_time PD.threshold
       PD.debounce_ms PD.hold_ms PD._last_trigger_time
       PD.with_state PD.with_pinch_start_time PD.with_last_trigger_time
       GestureState_eqb negb andb].

Lemma update_config (now distance : Q) (d : PD.t) :
  PD.threshold (PD.update now distance d) = PD.threshold d
  /\ PD.debounce_ms (PD.update now distance d) = PD.debounce_ms d
  /\ PD.hold_ms (PD.update now distance d) = PD.hold_ms d.
Proof.
  unfold PD.update. pinch_cases d; auto.
Qed.

Lemma run_config (h : list PD.call) :
  forall d,
    PD.threshold (PD.run h d) = PD.threshold d
    /\ PD.debounce_ms (PD.run h d) = PD.debounce_ms d.
Proof.
  induction h as [|c h IH]; intro d; cbn [PD.run]; [auto|].
  destruct (IH (PD.step c d)) as [-> ->].
  destruct c as [now distance|]; cbn [PD.step]; [|auto].
  destruct (update_config now distance d) as (-> & -> & _). auto.
Qed.

(** An [update] writes the debounce clock exactly when it takes the detector
    into [RELEASED]. *)
Lemma update_last_trigger_time (now distance : Q) (d : PD.t) :
  PD._last_trigger_time (PD.update now distance d)
  = if negb (GestureState_eqb (PD._state d) RELEASED)
         && GestureState_eqb (PD._state (PD.update now distance d)) RELEASED
    then now * 1000 else PD._last_trigger_time d.
Proof.
  unfold PD.update. pinch_cases d; reflexivity.
Qed.

Lemma run_last_trigger_time (h : list PD.call) :
  forall d,
    PD._last_trigger_time (PD.run h d)
    = PD.entered_released_at h d (PD._last_trigger_time d).
Proof.
  induction h as [|c h IH]; intro d; cbn [PD.run PD.entered_released_at];
    [reflexivity|].
  rewrite IH. destruct c as [now distance|]; cbn [PD.step].
  - now rewrite update_last_trigger_time.
  - reflexivity.
Qed.

Lemma update_from_released (now distance : Q) (d : PD.t) :
  PD._state d = RELEASED ->
  PD._state (PD.update now distance d) = IDLE
  /\ PD._last_trigger_time (PD.update now distance d) = PD._last_trigger_time d.
Proof.
  intro H. unfold PD.update. cbn [PD._state]. rewrite H. split; reflexivity.
Qed.

Lemma update_from_idle (now distance : Q) (d : PD.t) :
  PD._state d = IDLE ->
  (PD._state (PD.update now distance d) = TRIGGERED
   <-> distance < PD.threshold d
       /\ inject_Z (PD.debounce_ms d) < now * 1000 - PD._last_trigger_time d).
Proof.
  intro H. unfold PD.update.
  cbn [PD._state PD._is_pinched PD.threshold PD.debounce_ms
       PD._last_trigger_time].
  rewrite H. rewrite <- !ltb_true.
  destruct (ltb distance (PD.threshold d));
    [destruct (ltb (inject_Z (PD.debounce_ms d))
                   (now * 1000 - PD._last_trigger_time d))|];
    cbn [PD._state PD.with_state PD.with_pinch_start_time]; rewrite ?H;
    split; try tauto; try discriminate; intros [? ?]; discriminate.
Qed.

(** The scenario of the test suite and of the specification: threshold
    0.05, no debounce, hold after 100 ms. *)
Example pinch_click_pulse (t : Q) :
  0 < t ->
  let d1 := PD.update t (3 # 100) (PD.init (5 # 100) 0 100) in
  let d2 := PD.update t (10 # 100) d1 in
  let d3 := PD.update t (3 # 100) d2 in
  PD._state d1 = TRIGGERED /\ PD._state d2 = RELEASED /\ PD._state d3 = IDLE.
Proof.
  intros Ht d1 d2 d3.
  assert (H1 : PD._state d1 = TRIGGERED).
  { apply update_from_idle; [reflexivity|]. cbn. split; [reflexivity|].
    unfold inject_Z. lra. }
  assert (H2 : PD._state d2 = RELEASED).
  { unfold d2, PD.update. cbn [PD._state]. rewrite H1.
    assert (Hth : PD.threshold d1 = 5 # 100) by apply update_config.
    rewrite Hth. reflexivity. }
  split; [exact H1|]. split; [exact H2|].
  now apply update_from_released.
Qed.

(** C2 as stated fails: after [one_click] the detector is [IDLE] again; a
    pinch 0.1 s after the [RELEASED -> IDLE] update, with the default
    debounce of 200 ms, triggers, because 250 ms have passed since the
    update that entered [RELEASED]. *)
Lemma debounce_since_idle_again_fails :
  ~ debounce_since_idle_again (5 # 100) 200 300 one_click
      (1700000000 + (35 # 100)) (3 # 100).
Proof.
  unfold debounce_since_idle_again. intro H.
  assert (Hidle : PD._state (PD.run one_click (PD.init (5 # 100) 200 300)) = IDLE)
    by reflexivity.
  destruct (H Hidle) as [Hto _].
  assert (Htrig : PD._state
            (PD.update (1700000000 + (35 # 100)) (3 # 100)
               (PD.run one_click (PD.init (5 # 100) 200 300))) = TRIGGERED)
    by (vm_compute; reflexivity).
  destruct (Hto Htrig) as [_ Hdeb]. vm_compute in Hdeb. discriminate Hdeb.
Qed.

(** C2, amended.  For a detector built with [threshold], [debounce_ms] and
    [hold_ms] and any calls [h] made on it since:
    - from [RELEASED], the next [update] gives [IDLE] whatever the distance,
      and leaves the debounce clock [_last_trigger_time] as it was;
    - the debounce clock holds the clock reading (ms) of the most recent
      update that entered [RELEASED], and [0.0] while there was none;
    - from [IDLE], [update(distance)] gives [TRIGGERED] if and only if
      [distance < threshold] and the time since that reading exceeds
      [debounce_ms]. *)
Theorem pinch_debounce_since_release
  (thr : Q) (deb hold : Z) (h : list PD.call) (now distance : Q) :
  let d0 := PD.init thr deb hold in
  let d := PD.run h d0 in
  (PD._state d = RELEASED ->
     PD._state (PD.update now distance d) = IDLE
     /\ PD._last_trigger_time (PD.update now distance d)
        = PD._last_trigger_time d)
  /\ PD._last_trigger_time d = PD.entered_released_at h d0 0
  /\ (PD._state d = IDLE ->
       (PD._state (PD.update now distance d) = TRIGGERED
        <-> distance < thr
            /\ inject_Z deb < now * 1000 - PD.entered_released_at h d0 0)).
Proof.
  intros d0 d. split; [apply update_from_released|].
  assert (Hclock : PD._last_trigger_time d = PD.entered_released_at h d0 0)
    by apply (run_last_trigger_time h d0).
  split; [exact Hclock|].
  intro Hidle. rewrite <- Hclock.
  destruct (run_config h d0) as [Hthr Hdeb].
  rewrite (update_from_idle now distance d Hidle).
  fold d in Hthr, Hdeb. rewrite Hthr, Hdeb. reflexivity.
Qed.

Lemma pinch_debounce_since_release_witness :
  PD._state (PD.run one_click (PD.init (5 # 100) 200 300)) = IDLE
  /\ PD.entered_released_at one_click (PD.init (5 # 100) 200 300) 0
     == 1700000000100
  /\ (PD._state
        (PD.update (1700000000 + (35 # 100)) (3 # 100)
           (PD.run one_click (PD.init (5 # 100) 200 300))) = TRIGGERED
      <-> (3 # 100) < (5 # 100)
          /\ inject_Z 200
             < (1700000000 + (35 # 100)) * 1000
               - PD.entered_released_at one_click (PD.init (5 # 100) 200 300) 0).
Proof.
  split; [reflexivity|]. split; [reflexivity|].
  exact (proj2 (proj2 (pinch_debounce_since_release (5 # 100) 200 300 one_click
                         (1700000000 + (35 # 100)) (3 # 100))) eq_refl).
Defined.

(** ** Gesture engine *)

Lemma cursor_move_emitted (stamp : Q) (pos : Q * Q) (e : GE.t) :
  Forall (fun g => emitted (Gesture.type g))
         (GE.opt_list (GE._process_cursor_move stamp pos e)).
Proof.
  unfold GE._process_cursor_move.
  destruct (GE._last_position e) as [last|]; [|constructor].
  match goal with |- context [if ?b then _ else _] => destruct b end;
    repeat constructor.
Qed.

Lemma left_pinch_emitted (stamp : Q) (st : GestureState) (pos : Q * Q) (e : GE.t) :
  Forall (fun g => emitted (Gesture.type g))
         (fst (GE._process_left_pinch stamp st pos e)).
Proof.
  unfold GE._process_left_pinch, emitted.
  destruct st, (GE._is_dragging e); cbn; repeat constructor; tauto.
Qed.

Lemma right_pinch_emitted (stamp : Q) (st : GestureState) (pos : Q * Q) :
  Forall (fun g => emitted (Gesture.type g))
         (GE.opt_list (GE._process_right_pinch stamp st pos)).
Proof.
  unfold emitted. destruct st; cbn; repeat constructor; tauto.
Qed.

(** C10.  Whatever the hand data, the clock and the state of the engine,
    every gesture in the list [process] returns has one of the types
    [CURSOR_MOVE], [LEFT_CLICK], [RIGHT_CLICK], [DRAG_START], [DRAG_MOVE],
    [DRAG_END]: none is [SCROLL_UP], [SCROLL_DOWN] or [NONE]. *)
Theorem process_never_returns_scroll_or_none
  (np_sqrt : Q -> Q) (clk : GE.clock) (hand : HandData.t) (e : GE.t) :
  Forall (fun g =>
            emitted (Gesture.type g)
            /\ Gesture.type g <> SCROLL_UP
            /\ Gesture.type g <> SCROLL_DOWN
            /\ Gesture.type g <> NONE)
         (GE.returned (GE.process np_sqrt clk hand e)).
Proof.
  apply Forall_impl with (P := fun g => emitted (Gesture.type g)).
  { intros g Hg. split; [exact Hg|].
    unfold emitted in Hg. repeat split; intro E; rewrite E in Hg;
      repeat (destruct Hg as [Hg|Hg]; try discriminate). }
  unfold GE.process.
  destruct (HandData.is_valid hand); cbn [negb].
  - destruct (HandData.thumb_tip hand) as [thumb|]; [|constructor].
    destruct (HandData.index_tip hand) as [index|]; [|constructor].
    destruct (HandData.middle_tip hand) as [middle|]; [|constructor].
    match goal with
    | |- context [GE._process_left_pinch ?s ?st ?pos ?e0] =>
        pose proof (left_pinch_emitted s st pos e0) as Hl;
        destruct (GE._process_left_pinch s st pos e0) as [gs e1]
    end.
    cbn [GE.returned]. rewrite !Forall_app. split; [|split].
    + apply cursor_move_emitted.
    + exact Hl.
    + apply right_pinch_emitted.
  - destruct (GE._reset_on_no_hand (GE.t_stamp clk) e). constructor.
Qed.

(** What [process] does with invalid hand data, in any state: it returns an
    empty list; when a drag is in progress it hands one [DRAG_END] at the
    last position to the callbacks; it clears the drag flag and the last
    position and resets both detectors. *)
Lemma process_invalid_hand
  (np_sqrt : Q -> Q) (clk : GE.clock) (hand : HandData.t) (e : GE.t) :
  HandData.is_valid hand = false ->
  let o := GE.process np_sqrt clk hand e in
  GE.returned o = []
  /\ GE.dispatched o
     = (if GE._is_dragging e
        then [GE.gesture (GE.t_stamp clk) DRAG_END
                (match GE._last_position e with
                 | Some p => p
                 | None => (0, 0)
                 end) []]
        else [])
  /\ GE.engine o = GE.reset e.
Proof.
  intros H o. subst o.
  unfold GE.process, GE._reset_on_no_hand, GE.reset. rewrite H.
  cbn [negb].
  destruct (GE._is_dragging e) eqn:E; cbn; rewrite ?E; repeat split; reflexivity.
Qed.

(** C1, on the frames [drag_then_hand_lost] with the default configuration.
    The third frame returns [DRAG_START]: a drag is in progress.  On the
    fourth frame the hand is invalid: the [DRAG_END] at the last cursor
    position is handed to the callbacks, and the engine is cleared, but the
    list that [process] returns is empty. *)
Theorem hand_lost_mid_drag_returns_nothing :
  exists o1 o2 o3 o4,
    GE.run sqrt6 drag_then_hand_lost (GE.init GestureConfig.default)
      = [o1; o2; o3; o4]
    /\ summary (GE.returned o3) = [(DRAG_START, (52 # 100, 1 # 2))]
    /\ GE._is_dragging (GE.engine o3) = true
    /\ GE.returned o4 = []
    /\ summary (GE.dispatched o4) = [(DRAG_END, (52 # 100, 1 # 2))]
    /\ GE._is_dragging (GE.engine o4) = false
    /\ GE._last_position (GE.engine o4) = None
    /\ GE.engine o4 = GE.reset (GE.engine o3).
Proof.
  eexists _, _, _, _. split; [reflexivity|].
  repeat split; vm_compute; reflexivity.
Qed.

(* ================================================================== *)
(** * Further properties of the smoothers *)
(* ================================================================== *)

Lemma ema_outputs_alpha_one (ws : list Q) :
  forall p, Forall2 Qeq (ema_outputs 1 p ws) ws.
Proof.
  induction ws as [|w ws IH]; intro p; cbn [ema_outputs]; constructor.
  - ring.
  - apply IH.
Qed.

Lemma ema_outputs_alpha_zero (ws : list Q) :
  forall p v, p == v -> Forall (fun o => o == v) (ema_outputs 0 p ws).
Proof.
  induction ws as [|w ws IH]; intros p v Hp; cbn [ema_outputs]; constructor.
  - rewrite Hp. ring.
  - apply IH. rewrite Hp. ring.
Qed.

(** The two ends of the range of [alpha]: with [alpha = 1] every update
    returns its input, with [alpha = 0] every update returns the first input
    ever given. *)
Theorem ema_extreme_alphas (v : Q) (ws : list Q) :
  (exists outs e',
      EMA.run (v :: ws) (EMA.mk 1 None false) = Ok (outs, e')
      /\ Forall2 Qeq outs (v :: ws))
  /\ (exists outs e',
      EMA.run (v :: ws) (EMA.mk 0 None false) = Ok (outs, e')
      /\ length outs = S (length ws)
      /\ Forall (fun o => o == v) outs)
  /\ EMA.init 1 = Ok (EMA.mk 1 None false)
  /\ EMA.init 0 = Ok (EMA.mk 0 None false).
Proof.
  split; [|split; [|split; reflexivity]].
  - destruct (ema_run_seeded 1 ws v) as [e' E].
    exists (v :: ema_outputs 1 v ws), e'. split.
    + cbn. cbn in E. rewrite E. reflexivity.
    + constructor; [reflexivity | apply ema_outputs_alpha_one].
  - destruct (ema_run_seeded 0 ws v) as [e' E].
    exists (v :: ema_outputs 0 v ws), e'. split; [|split].
    + cbn. cbn in E. rewrite E. reflexivity.
    + simpl. now rewrite ema_outputs_length.
    + constructor; [reflexivity | now apply ema_outputs_alpha_zero].
Qed.

Lemma last_as_nth {A} (d : A) (xs : list A) :
  last xs d = nth (length xs - 1) xs d.
Proof.
  induction xs as [|x [|y ys] IH]; try reflexivity.
  change (last (x :: y :: ys) d) with (last (y :: ys) d). rewrite IH.
  cbn [length]. rewrite !Nat.sub_succ, !Nat.sub_0_r. reflexivity.
Qed.

(** After [k] updates of a new moving average of window [N]: the window
    holds [min(k, N)] values, so never more than [N]; [is_full] tells
    whether [k >= N]; and the [value] property is the value the last update
    returned ([None] before the first one). *)
Theorem ma_window_bookkeeping (N : Z) (vs : list Q) (m0 : MA.t) :
  (1 <= N)%Z ->
  MA.init N = Ok m0 ->
  exists outs m',
    MA.run vs m0 = Ok (outs, m')
    /\ length (MA._values m') = Nat.min (length vs) (Z.to_nat N)
    /\ MA.is_full m' = (N <=? len vs)%Z
    /\ match MA.value m' with
       | None => vs = []
       | Some r => vs <> [] /\ r == last outs 0
       end.
Proof.
  intros HN Hinit. destruct (ma_init_inv N m0 Hinit) as [-> _].
  assert (H0 : ma_holds N [] (MA.mk N [] 0)).
  { repeat split; cbn; try reflexivity.
    unfold lastn. simpl. now rewrite firstn_nil. }
  destruct (ma_run_holds N HN vs [] _ H0)
    as (outs & m' & E & (Hw & Hv & Hs) & Hlen & Hnth).
  cbn [app] in Hv, Hnth.
  exists outs, m'. split; [exact E|].
  assert (Hl : length (MA._values m') = Nat.min (length vs) (Z.to_nat N)).
  { rewrite Hv, lastn_length. apply Nat.min_comm. }
  split; [exact Hl|]. split.
  - unfold MA.is_full, len. rewrite Hl, Hw.
    destruct (Z.eqb_spec (Z.of_nat (Nat.min (length vs) (Z.to_nat N))) N);
      destruct (Z.leb_spec N (Z.of_nat (length vs))); trivial; lia.
  - unfold MA.value. destruct (MA._values m') as [|x xs] eqn:Ev.
    + cbn [length] in Hl. destruct vs; [reflexivity | cbn [length] in Hl; lia].
    + assert (Hne : vs <> []).
      { intro Evs. subst vs. cbn [length] in Hl. lia. }
      split; [exact Hne|].
      assert (Hk : (length vs - 1 < length vs)%nat)
        by (destruct vs; [congruence | simpl; lia]).
      assert (Hlast : last outs 0 = nth (length vs - 1) outs 0).
      { rewrite <- Hlen. apply last_as_nth. }
      rewrite Hlast, (Hnth _ Hk).
      replace (S (length vs - 1)) with (length vs) by lia.
      rewrite firstn_all, <- Hv. unfold mean. rewrite Hs. reflexivity.
Qed.

Lemma ma_window_bookkeeping_witness :
  exists outs m',
    MA.run [10; 20; 40] (MA.mk 2 [] 0) = Ok (outs, m')
    /\ length (MA._values m') = Nat.min (length [10; 20; 40]) (Z.to_nat 2)
    /\ MA.is_full m' = (2 <=? len [10; 20; 40])%Z
    /\ match MA.value m' with
       | None => [10; 20; 40] = []
       | Some r => [10; 20; 40] <> [] /\ r == last outs 0
       end.
Proof.
  apply (ma_window_bookkeeping 2 [10; 20; 40]); [lia | reflexivity].
Defined.

(** ** Double-exponential smoothing *)

Lemma des_update_value (v o : Q) (d d' : DES.t) :
  DES.update v d = Ok (o, d') ->
  exists r, DES.value d' = Some r /\ r == o.
Proof.
  unfold DES.update. intro H.
  destruct (negb (DES._initialized d)).
  - injection H as <- <-. exists v. split; [reflexivity | ring].
  - destruct (DES._level d) as [l|]; [|discriminate].
    destruct (DES._trend d) as [t|]; [|discriminate].
    injection H as <- <-. unfold DES.value. cbn [DES._level DES._trend truthy].
    match goal with |- context [eqb ?x 0] => destruct (eqb x 0) eqn:E end;
      cbn [negb]; eexists; split; try reflexivity.
    apply Qeq_bool_iff in E. rewrite E. ring.
Qed.

(** The [value] property of the double-exponential smoother is [None]
    after construction and after [reset()], and after an update it equals
    the value that update returned. *)
Theorem des_value_is_last_output :
  (forall a b d0, DES.init a b = Ok d0 -> DES.value d0 = None)
  /\ (forall d, DES.value (DES.reset d) = None)
  /\ (forall vs d outs d',
        vs <> [] ->
        DES.run vs d = Ok (outs, d') ->
        exists r, DES.value d' = Some r /\ r == last outs 0).
Proof.
  split; [|split].
  - intros a b d0 H. injection H as <-. reflexivity.
  - reflexivity.
  - induction vs as [|v vs IH]; intros d outs d' Hne H; [congruence|].
    cbn [DES.run] in H.
    destruct (DES.update v d) as [[o d1]|] eqn:E1; cbn [bind] in H;
      [|discriminate].
    destruct vs as [|v' vs'].
    + cbn in H. injection H as <- <-. now apply (des_update_value v o d).
    + destruct (DES.run (v' :: vs') d1) as [[os d2]|] eqn:E2; cbn [bind] in H;
        [|discriminate].
      injection H as <- <-.
      destruct (IH d1 os d2) as (r & Hr & Hro); [congruence | exact E2 |].
      exists r. split; [exact Hr|].
      destruct os as [|o' os']; [|exact Hro].
      cbn [DES.run] in E2.
      destruct (DES.update v' d1) as [[? ?]|]; cbn [bind] in E2; [|discriminate].
      destruct (DES.run vs' t) as [[? ?]|]; cbn [bind] in E2; discriminate.
Qed.

Lemma des_value_is_last_output_witness :
  exists outs d',
    DES.run [10; 20] (DES.mk (1 # 2) (1 # 2) None None false) = Ok (outs, d')
    /\ exists r, DES.value d' = Some r /\ r == last outs 0.
Proof.
  assert (E : exists outs d',
             DES.run [10; 20] (DES.mk (1 # 2) (1 # 2) None None false)
             = Ok (outs, d'))
    by (eexists _, _; vm_compute; reflexivity).
  destruct E as (outs & d' & E). exists outs, d'. split; [exact E|].
  apply (proj2 (proj2 des_value_is_last_output) [10; 20]
           (DES.mk (1 # 2) (1 # 2) None None false) outs d');
    [discriminate | exact E].
Defined.

(** ** Two-dimensional smoother *)

Module P2 := Point2DSmoother.

Lemma int_lt (q : Q) (k : Z) :
  (0 < k)%Z -> q < inject_Z k -> (int q < k)%Z.
Proof.
  unfold Qlt, int. destruct q as [n d]. simpl. intros Hk H.
  destruct (Z.le_gt_cases 0 n).
  - apply Z.quot_lt_upper_bound; lia.
  - assert (n ÷ Z.pos d <= 0)%Z by (apply Z.quot_le_upper_bound; lia). lia.
Qed.

Lemma int_ge (q : Q) (k : Z) : inject_Z k <= q -> (k <= int q)%Z.
Proof.
  unfold Qle, int. destruct q as [n d]. simpl. intro H.
  apply Z.quot_le_lower_bound; lia.
Qed.

Lemma window_of_alpha (a : Q) :
  ~ a == 0 -> ((1 <= int (1 / a))%Z <-> 0 < a <= 1).
Proof.
  intro Ha. assert (Hinv : a * (1 / a) == 1) by (field; exact Ha). split.
  - intro H.
    assert (Hr : 1 <= 1 / a).
    { apply Qnot_lt_le. intro Hlt.
      pose proof (int_lt (1 / a) 1 eq_refl Hlt). lia. }
    split; nra.
  - intros [H0 H1]. apply (int_ge (1 / a) 1). change (inject_Z 1) with 1.
    apply Qle_shift_div_l; lra.
Qed.

Lemma window_overflow (a : Q) :
  0 < a -> ((MA.maxlen_limit <= int (1 / a))%Z <-> a <= overflow_alpha).
Proof.
  intro Ha. unfold overflow_alpha. split.
  - intro H. apply Qnot_lt_le. intro Hlt.
    assert (Hq : 1 / a < inject_Z MA.maxlen_limit).
    { apply Qlt_shift_div_r; [exact Ha|]. unfold MA.maxlen_limit.
      change (inject_Z 9223372036854775808) with (9223372036854775808 # 1).
      lra. }
    pose proof (int_lt (1 / a) MA.maxlen_limit eq_refl Hq). lia.
  - intro H. apply int_ge. apply Qle_shift_div_l; [exact Ha|].
    unfold MA.maxlen_limit.
    change (inject_Z 9223372036854775808) with (9223372036854775808 # 1).
    lra.
Qed.

(** Which arguments the constructor of the two-dimensional smoother accepts.
    With type ["ema"]: exactly [alpha] in [[0,1]].  With any other type
    string the moving average is chosen, with window [int(1 / alpha)]:
    exactly [2^-63 < alpha <= 1] is accepted.  Above 1 the window is 0 and
    the size check raises; [alpha = 0] is a division by zero; and from
    [2^-63] down to 0 the window is too long for the [deque]. *)
Theorem point2d_accepted_alphas (a : Q) (ty : string) :
  (is_ok (P2.init a "ema") = true <-> 0 <= a <= 1)
  /\ (ty <> "ema"%string ->
      (is_ok (P2.init a ty) = true <-> overflow_alpha < a <= 1)
      /\ (a == 0 -> P2.init a ty = Raise ZeroDivisionError)
      /\ (0 < a <= overflow_alpha -> P2.init a ty = Raise OverflowError)
      /\ (1 < a ->
          P2.init a ty = Raise (ValueError "Window size must be at least 1"))).
Proof.
  split.
  - unfold P2.init. cbn [String.eqb Ascii.eqb Bool.eqb andb].
    change (String.eqb "ema" "ema") with true. cbv iota.
    unfold EMA.init. destruct (leb 0 a && leb a 1) eqn:E; cbn.
    + apply in_unit_true in E. tauto.
    + apply in_unit_false in E. split; [discriminate|]. lra.
  - intro Hty. apply String.eqb_neq in Hty. unfold P2.init. rewrite Hty.
    assert (Hoa : 0 < overflow_alpha) by reflexivity.
    unfold div. destruct (eqb a 0) eqn:E0; unfold eqb in E0.
    + apply Qeq_bool_iff in E0. cbn [bind is_ok].
      split; [|split; [reflexivity | split; intro H; exfalso; lra]].
      split; [discriminate | intro H; exfalso; lra].
    + apply Qeq_bool_neq in E0. cbn [bind].
      pose proof (window_of_alpha a E0) as Hw.
      unfold MA.init.
      destruct (Z.ltb_spec (int (1 / a)) 1) as [Hlow|Hlow]; cbn [bind is_ok].
      * assert (Hout : ~ 0 < a <= 1) by (intro H; apply Hw in H; lia).
        split; [|split; [tauto | split; [|reflexivity]]].
        -- split; [discriminate | intro H; exfalso; lra].
        -- intro H. exfalso. apply Hout. unfold overflow_alpha in H. lra.
      * assert (Hin : 0 < a <= 1) by (apply Hw; lia).
        pose proof (window_overflow a (proj1 Hin)) as Ho.
        destruct (Z.leb_spec MA.maxlen_limit (int (1 / a))) as [Hhigh|Hhigh];
          cbn [bind is_ok].
        -- assert (Hsmall : a <= overflow_alpha) by (apply Ho; exact Hhigh).
           split; [|split; [tauto | split; [reflexivity|]]].
           ++ split; [discriminate | intro H; exfalso; lra].
           ++ intro H. exfalso. lra.
        -- assert (Hbig : overflow_alpha < a).
           { apply Qnot_le_lt. intro H. apply Ho in H. lia. }
           split; [|split; [tauto | split; intro H; exfalso; lra]].
           split; [intros _; split; [exact Hbig | tauto] | reflexivity].
Qed.

Lemma point2d_accepted_alphas_witness :
  is_ok (P2.init (1 # 2) "moving_average") = true
  /\ P2.init (1 # 9223372036854775808) "moving_average" = Raise OverflowError.
Proof.
  assert (Hty : "moving_average"%string <> "ema"%string) by discriminate.
  assert (Hin : overflow_alpha < 1 # 2 <= 1) by (split; [reflexivity | discriminate]).
  assert (Hsmall : 0 < 1 # 9223372036854775808 <= overflow_alpha)
    by (split; [reflexivity | discriminate]).
  split.
  - exact (proj2 (proj1 (proj2 (point2d_accepted_alphas (1 # 2) "moving_average")
                           Hty)) Hin).
  - exact (proj1 (proj2 (proj2 (proj2 (point2d_accepted_alphas
                                         (1 # 9223372036854775808)
                                         "moving_average") Hty))) Hsmall).
Defined.

(** After [reset()] the smoother returns the next point as it is, for both
    kinds of inner smoother (a float equal to the input for the moving
    average). *)
Theorem point2d_reset_then_update (a : Q) (ty : string) (s : P2.t) (x y : Q) :
  P2.init a ty = Ok s ->
  forall ps outs s',
    P2.run ps s = Ok (outs, s') ->
    exists ox oy s'',
      P2.update x y (P2.reset s') = Ok ((ox, oy), s'')
      /\ ox == x /\ oy == y.
Proof.
  intros Hinit.
  (* the kind of the inner smoothers, and a window of at least one *)
  set (good := fun sm =>
         match sm with
         | P2.Ema _ => True
         | P2.Sma m => (1 <= MA.window_size m)%Z
         end).
  assert (Hupd : forall v sm o sm',
             good sm -> P2.smoother_update v sm = Ok (o, sm') -> good sm').
  { intros v [e|m] o sm' Hg H; cbn [P2.smoother_update] in H.
    - destruct (EMA.update v e) as [[? ?]|]; cbn [bind] in H; [|discriminate].
      injection H as _ <-. exact I.
    - destruct (MA.update v m) as [[? m1]|] eqn:E; cbn [bind] in H; [|discriminate].
      injection H as _ <-. cbn. rewrite (ma_update_window _ _ _ _ E). exact Hg. }
  assert (Hreset : forall v sm,
             good sm ->
             exists o sm', P2.smoother_update v (P2.smoother_reset sm) = Ok (o, sm')
                           /\ o == v).
  { intros v [e|m] Hg; cbn [P2.smoother_update P2.smoother_reset].
    - eexists _, _. split; [reflexivity|]. reflexivity.
    - rewrite (ma_reset_update m v Hg). cbn [bind]. eexists _, _.
      split; [reflexivity|]. unfold Qdiv. change (/ inject_Z 1) with 1. ring. }
  assert (Hs : good (P2._x_smoother s) /\ good (P2._y_smoother s)).
  { unfold P2.init in Hinit. destruct (String.eqb ty "ema").
    - destruct (EMA.init a); cbn [bind] in Hinit; [|discriminate].
      injection Hinit as <-. split; exact I.
    - destruct (div 1 a) as [q|]; cbn [bind] in Hinit; [|discriminate].
      destruct (MA.init (int q)) as [m|] eqn:Em; cbn [bind] in Hinit;
        [|discriminate].
      destruct (ma_init_inv _ _ Em) as [-> Hw].
      injection Hinit as <-. split; cbn; lia. }
  clear Hinit. intros ps. revert s Hs.
  induction ps as [|[px py] ps IH]; intros s [Hx Hy] outs s' Hrun;
    cbn [P2.run] in Hrun.
  - injection Hrun as _ <-.
    destruct (Hreset x _ Hx) as (ox & sx & Ex & Hox).
    destruct (Hreset y _ Hy) as (oy & sy & Ey & Hoy).
    exists ox, oy, (P2.mk sx sy). unfold P2.update, P2.reset.
    cbn [P2._x_smoother P2._y_smoother]. rewrite Ex. cbn [bind]. rewrite Ey.
    cbn [bind]. auto.
  - unfold P2.update in Hrun.
    destruct (P2.smoother_update px (P2._x_smoother s)) as [[? sx]|] eqn:Ex;
      cbn [bind] in Hrun; [|discriminate].
    destruct (P2.smoother_update py (P2._y_smoother s)) as [[? sy]|] eqn:Ey;
      cbn [bind] in Hrun; [|discriminate].
    destruct (P2.run ps (P2.mk sx sy)) as [[os s2]|] eqn:E2;
      cbn [bind] in Hrun; [|discriminate].
    injection Hrun as _ <-.
    assert (Hnext : good (P2._x_smoother (P2.mk sx sy))
                    /\ good (P2._y_smoother (P2.mk sx sy))).
    { split; cbn [P2._x_smoother P2._y_smoother].
      - exact (Hupd _ _ _ _ Hx Ex).
      - exact (Hupd _ _ _ _ Hy Ey). }
    exact (IH (P2.mk sx sy) Hnext os s2 E2).
Qed.

Lemma point2d_reset_then_update_witness :
  exists outs s',
    P2.run [(10, 20); (30, 40)] (P2.mk (P2.Sma (MA.mk 2 [] 0)) (P2.Sma (MA.mk 2 [] 0)))
      = Ok (outs, s')
    /\ exists ox oy s'',
         P2.update 5 15 (P2.reset s') = Ok ((ox, oy), s'')
         /\ ox == 5 /\ oy == 15.
Proof.
  assert (Hrun : exists outs s',
             P2.run [(10, 20); (30, 40)]
               (P2.mk (P2.Sma (MA.mk 2 [] 0)) (P2.Sma (MA.mk 2 [] 0)))
             = Ok (outs, s'))
    by (eexists _, _; vm_compute; reflexivity).
  destruct Hrun as (outs & s' & Hrun). exists outs, s'. split; [exact Hrun|].
  apply (point2d_reset_then_update (1 # 2) "moving_average"
           (P2.mk (P2.Sma (MA.mk 2 [] 0)) (P2.Sma (MA.mk 2 [] 0))) 5 15
           eq_refl [(10, 20); (30, 40)] outs s' Hrun).
Defined.

(* ================================================================== *)
(** * Further properties of the pinch detector *)
(* ================================================================== *)

Lemma update_transition_table (now distance : Q) (d : PD.t) :
  let d' := PD.update now distance d in
  (PD._state d' = RELEASED
   <-> (PD._state d = TRIGGERED \/ PD._state d = HOLDING)
       /\ PD.threshold d <= distance)
  /\ (PD._state d' = HOLDING ->
      (PD._state d = TRIGGERED \/ PD._state d = HOLDING)
      /\ distance < PD.threshold d)
  /\ (PD._state d' = TRIGGERED ->
      (PD._state d = IDLE \/ PD._state d = TRIGGERED)
      /\ distance < PD.threshold d)
  /\ (PD._state d = RELEASED -> PD._state d' = IDLE)
  /\ (PD._state d = IDLE -> PD._state d' = IDLE \/ PD._state d' = TRIGGERED).
Proof.
  intro d'. subst d'. unfold PD.update.
  cbn [PD._state PD._is_pinched PD._pinch_start_time PD.threshold
       PD.debounce_ms PD.hold_ms PD._last_trigger_time].
  destruct (ltb distance (PD.threshold d)) eqn:Ep;
    [apply ltb_true in Ep | apply ltb_false in Ep];
    destruct (PD._state d); cbn [negb];
    repeat match goal with
    | |- context [if ltb ?a ?b then _ else _] => destruct (ltb a b)
    | |- context [if truthy ?o then _ else _] => destruct (truthy o)
    | |- context [match PD._pinch_start_time d with
                  | Some _ => _ | None => _ end] =>
        destruct (PD._pinch_start_time d)
    end;
    cbn [PD._state PD.with_state PD.with_pinch_start_time
         PD.with_last_trigger_time];
    repeat split; try tauto; try discriminate;
    try (intros [[?|?] ?]; discriminate);
    try (intros [_ Hle]; exfalso; exact (Qlt_not_le _ _ Ep Hle));
    try (intros; exfalso; lra).
Qed.

(** The transitions of one [update]: [RELEASED] is entered exactly from
    [TRIGGERED] or [HOLDING] with the fingers apart
    ([distance >= threshold]); [HOLDING] is only reached from [TRIGGERED] or
    kept, [TRIGGERED] only reached from [IDLE] or kept, both with the
    fingers together; [RELEASED] lasts one call; and [IDLE] never leads
    straight to [HOLDING] or [RELEASED]. *)
Theorem pinch_transitions (now distance : Q) (d : PD.t) :
  let d' := PD.update now distance d in
  (PD._state d' = RELEASED
   <-> (PD._state d = TRIGGERED \/ PD._state d = HOLDING)
       /\ PD.threshold d <= distance)
  /\ (PD._state d' = HOLDING ->
      (PD._state d = TRIGGERED \/ PD._state d = HOLDING)
      /\ distance < PD.threshold d)
  /\ (PD._state d' = TRIGGERED ->
      (PD._state d = IDLE \/ PD._state d = TRIGGERED)
      /\ distance < PD.threshold d)
  /\ (PD._state d = RELEASED -> PD._state d' = IDLE)
  /\ (PD._state d = IDLE -> PD._state d' = IDLE \/ PD._state d' = TRIGGERED).
Proof. exact (update_transition_table now distance d). Qed.

Lemma update_pinch_start (now distance : Q) (d : PD.t) (t : option Q) :
  let d' := PD.update now distance d in
  let t' := if GestureState_eqb (PD._state d) IDLE
               && GestureState_eqb (PD._state d') TRIGGERED
            then Some (now * 1000) else t in
  ((PD._state d = TRIGGERED \/ PD._state d = HOLDING) ->
   PD._pinch_start_time d = t /\ t <> None) ->
  (PD._state d' = TRIGGERED \/ PD._state d' = HOLDING) ->
  PD._pinch_start_time d' = t' /\ t' <> None.
Proof.
  intros d' t'. subst d' t'. unfold PD.update. pinch_cases d;
    intros Hold [H|H]; try discriminate;
    try (split; [reflexivity | discriminate]);
    apply Hold; auto.
Qed.

Lemma run_pinch_start (h : list PD.call) :
  forall d t,
    ((PD._state d = TRIGGERED \/ PD._state d = HOLDING) ->
     PD._pinch_start_time d = t /\ t <> None) ->
    (PD._state (PD.run h d) = TRIGGERED \/ PD._state (PD.run h d) = HOLDING) ->
    PD._pinch_start_time (PD.run h d) = triggered_at h d t
    /\ triggered_at h d t <> None.
Proof.
  induction h as [|c h IH]; intros d t Hd; cbn [PD.run triggered_at].
  - exact Hd.
  - apply IH. destruct c as [now distance|]; cbn [PD.step].
    + now apply update_pinch_start.
    + cbn. intros [H|H]; discriminate.
Qed.

Lemma run_hold_ms (h : list PD.call) :
  forall d, PD.hold_ms (PD.run h d) = PD.hold_ms d.
Proof.
  induction h as [|c h IH]; intro d; cbn [PD.run]; [reflexivity|].
  rewrite IH. destruct c as [now distance|]; cbn [PD.step]; [|reflexivity].
  apply update_config.
Qed.

Lemma update_from_triggered (now distance t0 : Q) (d : PD.t) :
  PD._state d = TRIGGERED ->
  PD._pinch_start_time d = Some t0 ->
  (~ t0 == 0 ->
   (PD._state (PD.update now distance d) = HOLDING
    <-> distance < PD.threshold d
        /\ inject_Z (PD.hold_ms d) < now * 1000 - t0))
  /\ (t0 == 0 -> PD._state (PD.update now distance d) <> HOLDING).
Proof.
  intros Hs Ht. unfold PD.update.
  cbn [PD._state PD._is_pinched PD._pinch_start_time PD.threshold
       PD.debounce_ms PD.hold_ms PD._last_trigger_time].
  rewrite Hs, Ht. cbn [truthy]. unfold eqb. rewrite <- !ltb_true.
  destruct (ltb distance (PD.threshold d)); cbn [negb];
    destruct (Qeq_bool t0 0) eqn:E0; cbn [negb];
    [apply Qeq_bool_iff in E0 | apply Qeq_bool_neq in E0
     | apply Qeq_bool_iff in E0 | apply Qeq_bool_neq in E0];
    try destruct (ltb (inject_Z (PD.hold_ms d)) (now * 1000 - t0));
    cbn [PD._state PD.with_state PD.with_last_trigger_time];
    (split; [intros Hn; split; [intros H | intros [H1 H2]] | intros Hz H]);
    try discriminate; try tauto; try (now split).
Qed.

(** A detector that is [TRIGGERED] after the calls [h] remembers the clock
    reading [t] (ms) of the update that triggered it; the next
    [update(distance)] moves it to [HOLDING] if and only if the fingers are
    still together and more than [hold_ms] have passed since [t].  (A
    reading of exactly [0.0] counts as no reading: then [HOLDING] is not
    reached.) *)
Theorem pinch_holds_after_hold_time
  (thr : Q) (deb hold : Z) (h : list PD.call) (now distance : Q) :
  let d0 := PD.init thr deb hold in
  let d := PD.run h d0 in
  PD._state d = TRIGGERED ->
  exists t,
    triggered_at h d0 None = Some t
    /\ (~ t == 0 ->
        (PD._state (PD.update now distance d) = HOLDING
         <-> distance < thr /\ inject_Z hold < now * 1000 - t))
    /\ (t == 0 -> PD._state (PD.update now distance d) <> HOLDING).
Proof.
  intros d0 d Hs.
  destruct (run_pinch_start h d0 None) as [Hstart Hsome].
  { cbn. intros [H|H]; discriminate. }
  { left. exact Hs. }
  fold d in Hstart.
  destruct (triggered_at h d0 None) as [t|]; [|congruence].
  exists t. split; [reflexivity|].
  destruct (update_from_triggered now distance t d Hs Hstart) as [H1 H2].
  destruct (run_config h d0) as [Hthr _]. fold d in Hthr.
  pose proof (run_hold_ms h d0) as Hhold. fold d in Hhold.
  rewrite Hthr, Hhold in H1. auto.
Qed.

Lemma pinch_holds_after_hold_time_witness :
  PD._state (PD.run pinch_started (PD.init (5 # 100) 200 300)) = TRIGGERED
  /\ exists t,
       triggered_at pinch_started (PD.init (5 # 100) 200 300) None = Some t
       /\ (~ t == 0 ->
           (PD._state
              (PD.update (1700000000 + (4 # 10)) (3 # 100)
                 (PD.run pinch_started (PD.init (5 # 100) 200 300))) = HOLDING
            <-> (3 # 100) < (5 # 100)
                /\ inject_Z 300 < (1700000000 + (4 # 10)) * 1000 - t))
       /\ (t == 0 ->
           PD._state
             (PD.update (1700000000 + (4 # 10)) (3 # 100)
                (PD.run pinch_started (PD.init (5 # 100) 200 300))) <> HOLDING).
Proof.
  split; [reflexivity|].
  exact (pinch_holds_after_hold_time (5 # 100) 200 300 pinch_started
           (1700000000 + (4 # 10)) (3 # 100) eq_refl).
Defined.

(* ================================================================== *)
(** * Further properties of the gesture engine *)
(* ================================================================== *)

Section EngineProperties.

Variable np_sqrt : Q -> Q.

(** [process] on a valid hand that has the three fingertips, spelled out. *)
Lemma process_with_tips (clk : GE.clock) (hand : HandData.t) (e : GE.t)
      (thumb index middle : Point3D.t) :
  HandData.is_valid hand = true ->
  HandData.thumb_tip hand = Some thumb ->
  HandData.index_tip hand = Some index ->
  HandData.middle_tip hand = Some middle ->
  let left := PD.update (GE.t_left clk)
                (Point3D.distance_to np_sqrt thumb index) (GE._left_pinch e) in
  let right := PD.update (GE.t_right clk)
                 (Point3D.distance_to np_sqrt thumb middle) (GE._right_pinch e) in
  let e1 := GE.mk (GE.config e) left right (GE._last_position e)
                  (GE._is_dragging e) in
  let pos := cursor_of index in
  let lp := GE._process_left_pinch (GE.t_stamp clk) (PD._state left) pos e1 in
  let gs := GE.opt_list (GE._process_cursor_move (GE.t_stamp clk) pos e1)
            ++ fst lp
            ++ GE.opt_list (GE._process_right_pinch (GE.t_stamp clk)
                              (PD._state right) pos) in
  GE.process np_sqrt clk hand e
  = GE.mk_outcome gs gs
      (GE.mk (GE.config e) left right (Some pos) (GE._is_dragging (snd lp))).
Proof.
  intros Hv Ht Hi Hm left right e1 pos lp gs.
  unfold GE.process. rewrite Hv, Ht, Hi, Hm. cbn [negb].
  fold left right. fold e1. change (Point3D.x index, Point3D.y index) with pos.
  subst gs. fold lp.
  assert (Hcfg : forall st, 
             GE.config (snd (GE._process_left_pinch (GE.t_stamp clk) st pos e1))
             = GE.config e
             /\ GE._left_pinch (snd (GE._process_left_pinch (GE.t_stamp clk) st pos e1))
                = left
             /\ GE._right_pinch (snd (GE._process_left_pinch (GE.t_stamp clk) st pos e1))
                = right).
  { intro st. unfold GE._process_left_pinch.
    destruct st, (GE._is_dragging e1); cbn; auto. }
  destruct (Hcfg (PD._state left)) as (H1 & H2 & H3). fold lp in H1, H2, H3.
  destruct lp as [lg e2]. cbn [fst snd] in *. rewrite H1, H2, H3. reflexivity.
Qed.

Lemma left_pinch_cases (stamp : Q) (st : GestureState) (pos : Q * Q) (e : GE.t) :
  let lp := GE._process_left_pinch stamp st pos e in
  match st, GE._is_dragging e with
  | HOLDING, false =>
      fst lp = [GE.gesture stamp DRAG_START pos []]
      /\ GE._is_dragging (snd lp) = true
  | HOLDING, true =>
      fst lp = [GE.gesture stamp DRAG_MOVE pos []]
      /\ GE._is_dragging (snd lp) = true
  | RELEASED, true =>
      fst lp = [GE.gesture stamp DRAG_END pos []]
      /\ GE._is_dragging (snd lp) = false
  | RELEASED, false =>
      fst lp = [GE.gesture stamp LEFT_CLICK pos []]
      /\ GE._is_dragging (snd lp) = false
  | _, b => fst lp = [] /\ GE._is_dragging (snd lp) = b
  end.
Proof.
  unfold GE._process_left_pinch.
  destruct st, (GE._is_dragging e) eqn:E; cbn; auto.
Qed.

(** One valid frame with the three fingertips: the returned list is, in
    this order, at most one [CURSOR_MOVE], at most one gesture of the left
    pinch ([LEFT_CLICK], [DRAG_START], [DRAG_MOVE] or [DRAG_END]) and at
    most one [RIGHT_CLICK], so at most three gestures; every one is at the
    position of the index tip; the callbacks get the same list; and the
    index tip becomes the last position. *)
Theorem process_frame_shape (clk : GE.clock) (hand : HandData.t) (e : GE.t)
        (thumb index middle : Point3D.t) :
  HandData.is_valid hand = true ->
  HandData.thumb_tip hand = Some thumb ->
  HandData.index_tip hand = Some index ->
  HandData.middle_tip hand = Some middle ->
  let o := GE.process np_sqrt clk hand e in
  exists c l r : option Gesture.t,
    GE.returned o = GE.opt_list c ++ GE.opt_list l ++ GE.opt_list r
    /\ GE.dispatched o = GE.returned o
    /\ (forall g, c = Some g -> Gesture.type g = CURSOR_MOVE)
    /\ (forall g, l = Some g ->
          Gesture.type g = LEFT_CLICK \/ Gesture.type g = DRAG_START
          \/ Gesture.type g = DRAG_MOVE \/ Gesture.type g = DRAG_END)
    /\ (forall g, r = Some g -> Gesture.type g = RIGHT_CLICK)
    /\ Forall (fun g => Gesture.position g = cursor_of index) (GE.returned o)
    /\ GE._last_position (GE.engine o) = Some (cursor_of index).
Proof.
  intros Hv Ht Hi Hm o. subst o.
  rewrite (process_with_tips clk hand e thumb index middle Hv Ht Hi Hm).
  cbn [GE.returned GE.dispatched GE.engine GE._last_position].
  match goal with
  | |- context [GE._process_cursor_move ?s ?p ?e1] =>
      set (c := GE._process_cursor_move s p e1)
  end.
  match goal with
  | |- context [GE._process_left_pinch ?s ?st ?p ?e1] =>
      pose proof (left_pinch_cases s st p e1) as Hl;
      set (lp := GE._process_left_pinch s st p e1) in *
  end.
  match goal with
  | |- context [GE._process_right_pinch ?s ?st ?p] =>
      set (r := GE._process_right_pinch s st p)
  end.
  assert (Hc : forall g, c = Some g ->
                 Gesture.type g = CURSOR_MOVE
                 /\ Gesture.position g = cursor_of index).
  { subst c. unfold GE._process_cursor_move. intros g.
    destruct (GE._last_position _); [|discriminate].
    match goal with |- context [if ?b then _ else _] => destruct b end;
      [|discriminate].
    intro H. injection H as <-. split; reflexivity. }
  assert (Hr : forall g, r = Some g ->
                 Gesture.type g = RIGHT_CLICK
                 /\ Gesture.position g = cursor_of index).
  { subst r. intros g. unfold GE._process_right_pinch.
    destruct (PD._state (PD.update (GE.t_right clk)
                           (Point3D.distance_to np_sqrt thumb middle)
                           (GE._right_pinch e)));
      intros H; try discriminate H.
    injection H as <-. split; reflexivity. }
  assert (Hlg : exists l : option Gesture.t,
             fst lp = GE.opt_list l
             /\ forall g, l = Some g ->
                  (Gesture.type g = LEFT_CLICK \/ Gesture.type g = DRAG_START
                   \/ Gesture.type g = DRAG_MOVE \/ Gesture.type g = DRAG_END)
                  /\ Gesture.position g = cursor_of index).
  { cbv zeta in Hl.
    destruct (PD._state _), (GE._is_dragging _); destruct Hl as [-> _];
      first [ exists None; split; [reflexivity | discriminate]
            | eexists (Some _); split; [reflexivity|];
              intros g Hg; injection Hg as <-; cbn; tauto ]. }
  destruct Hlg as (l & El & Hl').
  exists c, l, r. rewrite El. split; [reflexivity|]. split; [reflexivity|].
  split; [intros g Hg; apply (Hc g Hg)|].
  split; [intros g Hg; apply (Hl' g Hg)|].
  split; [intros g Hg; apply (Hr g Hg)|].
  split; [|reflexivity].
  rewrite !Forall_app. repeat split.
  - destruct c as [g|]; constructor; [apply (Hc g eq_refl) | constructor].
  - destruct l as [g|]; constructor; [apply (Hl' g eq_refl) | constructor].
  - destruct r as [g|]; constructor; [apply (Hr g eq_refl) | constructor].
Qed.

Lemma cursor_move_types (stamp : Q) (pos : Q * Q) (e : GE.t) :
  map Gesture.type (GE.opt_list (GE._process_cursor_move stamp pos e))
  = match GE._last_position e with
    | Some last =>
        if ltb (GestureConfig.velocity_threshold (GE.config e))
               (Qabs (fst pos - fst last))
           || ltb (GestureConfig.velocity_threshold (GE.config e))
                  (Qabs (snd pos - snd last))
        then [CURSOR_MOVE] else []
    | None => []
    end.
Proof.
  unfold GE._process_cursor_move. destruct (GE._last_position e); [|reflexivity].
  match goal with |- context [if ?b then _ else _] => destruct b end;
    reflexivity.
Qed.

Lemma left_pinch_types (stamp : Q) (st : GestureState) (pos : Q * Q) (e : GE.t) :
  map Gesture.type (fst (GE._process_left_pinch stamp st pos e))
  = match st, GE._is_dragging e with
    | HOLDING, false => [DRAG_START]
    | HOLDING, true => [DRAG_MOVE]
    | RELEASED, true => [DRAG_END]
    | RELEASED, false => [LEFT_CLICK]
    | _, _ => []
    end.
Proof.
  unfold GE._process_left_pinch. destruct st, (GE._is_dragging e); reflexivity.
Qed.

Lemma right_pinch_types (stamp : Q) (st : GestureState) (pos : Q * Q) :
  map Gesture.type (GE.opt_list (GE._process_right_pinch stamp st pos))
  = match st with RELEASED => [RIGHT_CLICK] | _ => [] end.
Proof. destruct st; reflexivity. Qed.

(** The types returned by a valid frame with the three fingertips. *)
Lemma process_types (clk : GE.clock) (hand : HandData.t) (e : GE.t)
      (thumb index middle : Point3D.t) :
  HandData.is_valid hand = true ->
  HandData.thumb_tip hand = Some thumb ->
  HandData.index_tip hand = Some index ->
  HandData.middle_tip hand = Some middle ->
  let left := PD.update (GE.t_left clk)
                (Point3D.distance_to np_sqrt thumb index) (GE._left_pinch e) in
  let right := PD.update (GE.t_right clk)
                 (Point3D.distance_to np_sqrt thumb middle) (GE._right_pinch e) in
  map Gesture.type (GE.returned (GE.process np_sqrt clk hand e))
  = match GE._last_position e with
    | Some last =>
        if ltb (GestureConfig.velocity_threshold (GE.config e))
               (Qabs (Point3D.x index - fst last))
           || ltb (GestureConfig.velocity_threshold (GE.config e))
                  (Qabs (Point3D.y index - snd last))
        then [CURSOR_MOVE] else []
    | None => []
    end
    ++ match PD._state left, GE._is_dragging e with
       | HOLDING, false => [DRAG_START]
       | HOLDING, true => [DRAG_MOVE]
       | RELEASED, true => [DRAG_END]
       | RELEASED, false => [LEFT_CLICK]
       | _, _ => []
       end
    ++ match PD._state right with RELEASED => [RIGHT_CLICK] | _ => [] end.
Proof.
  intros Hv Ht Hi Hm left right.
  rewrite (process_with_tips clk hand e thumb index middle Hv Ht Hi Hm).
  cbn [GE.returned]. rewrite !map_app.
  rewrite cursor_move_types, left_pinch_types, right_pinch_types.
  reflexivity.
Qed.

(** [CURSOR_MOVE] is returned exactly when a last position is stored and
    the index tip is farther from it than [velocity_threshold] along [x] or
    along [y]; in particular never on the first frame after construction,
    [reset()] or a lost hand. *)
Theorem cursor_move_iff_moved (clk : GE.clock) (hand : HandData.t) (e : GE.t)
        (thumb index middle : Point3D.t) :
  HandData.is_valid hand = true ->
  HandData.thumb_tip hand = Some thumb ->
  HandData.index_tip hand = Some index ->
  HandData.middle_tip hand = Some middle ->
  In CURSOR_MOVE
     (map Gesture.type (GE.returned (GE.process np_sqrt clk hand e)))
  <-> exists last,
        GE._last_position e = Some last
        /\ (GestureConfig.velocity_threshold (GE.config e)
               < Qabs (Point3D.x index - fst last)
            \/ GestureConfig.velocity_threshold (GE.config e)
                 < Qabs (Point3D.y index - snd last)).
Proof.
  intros Hv Ht Hi Hm.
  rewrite (process_types clk hand e thumb index middle Hv Ht Hi Hm).
  rewrite !in_app_iff.
  assert (Hl : forall st b,
             ~ In CURSOR_MOVE
                 match st, b with
                 | HOLDING, false => [DRAG_START]
                 | HOLDING, true => [DRAG_MOVE]
                 | RELEASED, true => [DRAG_END]
                 | RELEASED, false => [LEFT_CLICK]
                 | _, _ => []
                 end).
  { intros [] []; cbn; intuition discriminate. }
  assert (Hr : forall st,
             ~ In CURSOR_MOVE
                 match st with RELEASED => [RIGHT_CLICK] | _ => [] end).
  { intros []; cbn; intuition discriminate. }
  destruct (GE._last_position e) as [last|].
  - match goal with
    | |- context [if ?b then _ else _] => destruct b eqn:Eb
    end; cbn [In]; split.
    + intros _. exists last. split; [reflexivity|].
      apply orb_true_iff in Eb. now rewrite <- !ltb_true.
    + auto.
    + intros [[]|[H|H]]; [exfalso; eapply Hl; eauto | exfalso; eapply Hr; eauto].
    + intros (l & Hl' & Hd). injection Hl' as <-.
      rewrite <- !ltb_true, <- orb_true_iff in Hd. congruence.
  - cbn [In]. split.
    + intros [[]|[H|H]]; [exfalso; eapply Hl; eauto | exfalso; eapply Hr; eauto].
    + intros (l & Hl' & _). discriminate.
Qed.

(** [RIGHT_CLICK] is returned exactly when the thumb-middle detector was
    [TRIGGERED] or [HOLDING] and the two fingers are now apart: once per
    right pinch, at its release, however long it was held. *)
Theorem right_click_iff_released (clk : GE.clock) (hand : HandData.t) (e : GE.t)
        (thumb index middle : Point3D.t) :
  HandData.is_valid hand = true ->
  HandData.thumb_tip hand = Some thumb ->
  HandData.index_tip hand = Some index ->
  HandData.middle_tip hand = Some middle ->
  In RIGHT_CLICK
     (map Gesture.type (GE.returned (GE.process np_sqrt clk hand e)))
  <-> (PD._state (GE._right_pinch e) = TRIGGERED
       \/ PD._state (GE._right_pinch e) = HOLDING)
      /\ PD.threshold (GE._right_pinch e)
         <= Point3D.distance_to np_sqrt thumb middle.
Proof.
  intros Hv Ht Hi Hm.
  rewrite (process_types clk hand e thumb index middle Hv Ht Hi Hm).
  rewrite !in_app_iff.
  destruct (update_transition_table (GE.t_right clk)
              (Point3D.distance_to np_sqrt thumb middle) (GE._right_pinch e))
    as [Hrel _].
  cbv zeta in Hrel. rewrite <- Hrel.
  assert (Hc : ~ In RIGHT_CLICK
                 match GE._last_position e with
                 | Some last =>
                     if ltb (GestureConfig.velocity_threshold (GE.config e))
                            (Qabs (Point3D.x index - fst last))
                        || ltb (GestureConfig.velocity_threshold (GE.config e))
                               (Qabs (Point3D.y index - snd last))
                     then [CURSOR_MOVE] else []
                 | None => []
                 end).
  { destruct (GE._last_position e); [|intros []].
    destruct (_ || _); cbn; intuition discriminate. }
  assert (Hl : forall st b,
             ~ In RIGHT_CLICK
                 match st, b with
                 | HOLDING, false => [DRAG_START]
                 | HOLDING, true => [DRAG_MOVE]
                 | RELEASED, true => [DRAG_END]
                 | RELEASED, false => [LEFT_CLICK]
                 | _, _ => []
                 end).
  { intros [] []; cbn; intuition discriminate. }
  split.
  - intros [H|[H|H]]; [exfalso; exact (Hc H) | exfalso; exact (Hl _ _ H)|].
    destruct (PD._state _); cbn in H; try tauto; reflexivity.
  - intro H. right. right. rewrite H. left. reflexivity.
Qed.

(** A hand flagged valid that carries fewer than thirteen landmarks has no
    middle tip: [process] returns nothing, calls no callback and leaves the
    engine exactly as it was (no detector is advanced, the last position is
    kept). *)
Theorem process_missing_landmarks (clk : GE.clock) (hand : HandData.t) (e : GE.t) :
  HandData.is_valid hand = true ->
  (length (HandData.landmarks hand) <= 12)%nat ->
  GE.process np_sqrt clk hand e = GE.mk_outcome [] [] e.
Proof.
  intros Hv Hlen. unfold GE.process. rewrite Hv. cbn [negb].
  assert (Hm : HandData.middle_tip hand = None).
  { unfold HandData.middle_tip, HandData._get_landmark, HandLandmark.MIDDLE_TIP.
    rewrite Hv. cbn [andb Z.leb Z.compare].
    destruct (Z.ltb_spec 12 (len (HandData.landmarks hand))) as [H|H];
      [unfold len in H; lia | reflexivity]. }
  rewrite Hm.
  destruct (HandData.thumb_tip hand), (HandData.index_tip hand); reflexivity.
Qed.

(** Losing the hand leaves the engine as [reset()] does (both detectors
    [IDLE], no last position, no drag); the only difference is the one
    [DRAG_END], at the last position, that the callbacks get when a drag
    was in progress. *)
Theorem hand_loss_resets_engine (clk : GE.clock) (hand : HandData.t) (e : GE.t) :
  HandData.is_valid hand = false ->
  let o := GE.process np_sqrt clk hand e in
  GE.engine o = GE.reset e
  /\ PD._state (GE._left_pinch (GE.engine o)) = IDLE
  /\ PD._state (GE._right_pinch (GE.engine o)) = IDLE
  /\ GE._last_position (GE.engine o) = None
  /\ GE._is_dragging (GE.engine o) = false
  /\ summary (GE.dispatched o)
     = if GE._is_dragging e
       then [(DRAG_END, match GE._last_position e with
                        | Some p => p
                        | None => (0, 0)
                        end)]
       else [].
Proof.
  intros H o.
  destruct (process_invalid_hand np_sqrt clk hand e H) as (_ & Hd & He).
  fold o in Hd, He. rewrite He, Hd.
  repeat split. destruct (GE._is_dragging e); reflexivity.
Qed.

Lemma drag_protocol_app (xs ys : list GestureType) :
  forall b,
    drag_protocol b (xs ++ ys)
    = match drag_protocol b xs with
      | Some b' => drag_protocol b' ys
      | None => None
      end.
Proof.
  induction xs as [|x xs IH]; intro b; cbn [app drag_protocol]; [reflexivity|].
  destruct x, b; try reflexivity; apply IH.
Qed.

Lemma process_drag_protocol (clk : GE.clock) (hand : HandData.t) (e : GE.t) :
  drag_protocol (GE._is_dragging e)
    (map Gesture.type (GE.dispatched (GE.process np_sqrt clk hand e)))
  = Some (GE._is_dragging (GE.engine (GE.process np_sqrt clk hand e))).
Proof.
  destruct (HandData.is_valid hand) eqn:Hv.
  - destruct (HandData.thumb_tip hand) as [thumb|] eqn:Ht;
      [destruct (HandData.index_tip hand) as [index|] eqn:Hi;
       [destruct (HandData.middle_tip hand) as [middle|] eqn:Hm|]|].
    + rewrite (process_with_tips clk hand e thumb index middle Hv Ht Hi Hm).
      cbn [GE.dispatched GE.engine GE._is_dragging].
      rewrite !map_app, cursor_move_types, right_pinch_types, !drag_protocol_app.
      match goal with
      | |- context [GE._process_left_pinch ?s ?st ?p ?e1] =>
          pose proof (left_pinch_cases s st p e1) as Hl;
          set (lp := GE._process_left_pinch s st p e1) in *
      end.
      cbv zeta in Hl. cbn [GE._is_dragging GE._last_position GE.config] in *.
      assert (Hc : forall b l,
                 drag_protocol b
                   match l with
                   | Some last =>
                       if ltb (GestureConfig.velocity_threshold (GE.config e))
                              (Qabs (fst (cursor_of index) - fst last))
                          || ltb (GestureConfig.velocity_threshold (GE.config e))
                                 (Qabs (snd (cursor_of index) - snd last))
                       then [CURSOR_MOVE] else []
                   | None => []
                   end = Some b).
      { intros b [last|]; [|reflexivity]. destruct (_ || _); reflexivity. }
      rewrite Hc.
      assert (Hr : forall b st,
                 drag_protocol b
                   match st with RELEASED => [RIGHT_CLICK] | _ => [] end
                 = Some b).
      { intros b []; reflexivity. }
      destruct (PD._state _), (GE._is_dragging e); destruct Hl as [-> ->];
        cbn [map Gesture.type GE.gesture drag_protocol]; apply Hr.
    + unfold GE.process. rewrite Hv, Ht, Hi, Hm. reflexivity.
    + unfold GE.process. rewrite Hv, Ht, Hi. reflexivity.
    + unfold GE.process. rewrite Hv, Ht. reflexivity.
  - destruct (process_invalid_hand np_sqrt clk hand e Hv) as (_ & -> & ->).
    destruct (GE._is_dragging e); reflexivity.
Qed.

Lemma last_cons_default {A} (a d : A) (l : list A) :
  last (a :: l) d = last l a.
Proof.
  revert a d. induction l as [|b l IH]; intros a d; [reflexivity|].
  change (last (a :: b :: l) d) with (last (b :: l) d).
  now rewrite (IH b d), (IH b a).
Qed.

(** Along any sequence of frames the drag gestures handed to the callbacks
    come in order: every [DRAG_START] is followed, possibly after
    [DRAG_MOVE]s, by exactly one [DRAG_END] before the next [DRAG_START];
    [DRAG_MOVE] and [DRAG_END] only come inside a drag and [LEFT_CLICK] only
    outside; and the drag flag of the engine says whether a drag is open. *)
Theorem drag_protocol_kept (frames : list (GE.clock * HandData.t)) (e : GE.t) :
  drag_protocol (GE._is_dragging e)
    (dispatched_types (GE.run np_sqrt frames e))
  = Some (GE._is_dragging (final_engine (GE.run np_sqrt frames e) e)).
Proof.
  revert e. induction frames as [|[clk hand] frames IH]; intro e.
  - reflexivity.
  - cbn [GE.run]. unfold dispatched_types, final_engine in *.
    cbn [flat_map map]. rewrite map_app, drag_protocol_app.
    rewrite process_drag_protocol, IH. now rewrite last_cons_default.
Qed.

Lemma update_from_holding (now distance : Q) (d : PD.t) :
  PD._state d = HOLDING ->
  (PD._state (PD.update now distance d) = HOLDING <-> distance < PD.threshold d)
  /\ (PD._state (PD.update now distance d) = HOLDING
      \/ PD._state (PD.update now distance d) = RELEASED).
Proof.
  intro H. unfold PD.update.
  cbn [PD._state PD._is_pinched PD.threshold].
  rewrite H. rewrite <- ltb_true.
  destruct (ltb distance (PD.threshold d)); cbn; rewrite ?H;
    intuition discriminate.
Qed.

Lemma step_dragging_iff_holding (c : GE.call) (e : GE.t) :
  dragging_iff_holding e ->
  dragging_iff_holding (GE.engine (GE.step np_sqrt c e)).
Proof.
  unfold dragging_iff_holding. intro Inv.
  destruct c as [clk hand|]; cbn [GE.step GE.engine];
    [|cbn; intuition discriminate].
  destruct (HandData.is_valid hand) eqn:Hv.
  - destruct (HandData.thumb_tip hand) as [thumb|] eqn:Ht;
      [destruct (HandData.index_tip hand) as [index|] eqn:Hi;
       [destruct (HandData.middle_tip hand) as [middle|] eqn:Hm|]|].
    + rewrite (process_with_tips clk hand e thumb index middle Hv Ht Hi Hm).
      cbn [GE.engine GE._is_dragging GE._left_pinch].
      match goal with
      | |- context [GE._process_left_pinch ?s ?st ?p ?e1] =>
          pose proof (left_pinch_cases s st p e1) as Hl;
          set (lp := GE._process_left_pinch s st p e1) in *
      end.
      cbv zeta in Hl. cbn [GE._is_dragging] in Hl.
      destruct (update_transition_table (GE.t_left clk)
                  (Point3D.distance_to np_sqrt thumb index) (GE._left_pinch e))
        as (_ & _ & Htrig & Hrel & _).
      cbv zeta in Htrig, Hrel.
      pose proof (update_from_holding (GE.t_left clk)
                    (Point3D.distance_to np_sqrt thumb index) (GE._left_pinch e))
        as Hhold.
      destruct (PD._state (PD.update _ _ (GE._left_pinch e))) eqn:Es;
        destruct (GE._is_dragging e) eqn:Eb; destruct Hl as [_ ->];
        split; intro H; try discriminate; try reflexivity; exfalso.
      * destruct (Hhold (proj1 Inv eq_refl)) as [_ [?|?]]; discriminate.
      * destruct (Hhold (proj1 Inv eq_refl)) as [_ [?|?]]; discriminate.
    + unfold GE.process. rewrite Hv, Ht, Hi, Hm. exact Inv.
    + unfold GE.process. rewrite Hv, Ht, Hi. exact Inv.
    + unfold GE.process. rewrite Hv, Ht. exact Inv.
  - destruct (process_invalid_hand np_sqrt clk hand e Hv) as (_ & _ & ->).
    cbn. intuition discriminate.
Qed.

Lemma after_dragging_iff_holding (calls : list GE.call) :
  forall e, dragging_iff_holding e ->
            dragging_iff_holding (GE.after np_sqrt calls e).
Proof.
  induction calls as [|c calls IH]; intros e He; cbn [GE.after]; [exact He|].
  apply IH. now apply step_dragging_iff_holding.
Qed.

(** What the left pinch yields, for an engine reached from its constructor
    by any frames and [reset()] calls, on a valid frame with the three
    fingertips.  A pinch let go before it was held gives [LEFT_CLICK]; a
    held pinch gives [DRAG_START] when the hold is recognised, [DRAG_MOVE]
    on every later frame with the fingers together, and [DRAG_END], never a
    click, when they part. *)
Theorem left_pinch_gestures (cfg : GestureConfig.t) (calls : list GE.call)
        (clk : GE.clock) (hand : HandData.t) (thumb index middle : Point3D.t) :
  HandData.is_valid hand = true ->
  HandData.thumb_tip hand = Some thumb ->
  HandData.index_tip hand = Some index ->
  HandData.middle_tip hand = Some middle ->
  let e := GE.after np_sqrt calls (GE.init cfg) in
  let left := GE._left_pinch e in
  let distance := Point3D.distance_to np_sqrt thumb index in
  let types := map Gesture.type (GE.returned (GE.process np_sqrt clk hand e)) in
  (In LEFT_CLICK types
   <-> PD._state left = TRIGGERED /\ PD.threshold left <= distance)
  /\ (In DRAG_END types
      <-> PD._state left = HOLDING /\ PD.threshold left <= distance)
  /\ (In DRAG_MOVE types
      <-> PD._state left = HOLDING /\ distance < PD.threshold left)
  /\ (In DRAG_START types
      <-> PD._state left = TRIGGERED
          /\ PD._state (PD.update (GE.t_left clk) distance left) = HOLDING).
Proof.
  intros Hv Ht Hi Hm e left distance types. subst types.
  rewrite (process_types clk hand e thumb index middle Hv Ht Hi Hm).
  assert (Inv : dragging_iff_holding e).
  { apply after_dragging_iff_holding. unfold dragging_iff_holding. cbn.
    split; discriminate. }
  unfold dragging_iff_holding in Inv. fold left in Inv.
  fold left. fold distance.
  destruct (update_transition_table (GE.t_left clk) distance left)
    as (Hrel & Hhol & Htrig & Hfrom_rel & Hfrom_idle).
  cbv zeta in Hrel, Hhol, Htrig, Hfrom_rel, Hfrom_idle.
  pose proof (update_from_holding (GE.t_left clk) distance left) as Hhold.
  assert (Hc : forall ty,
             ty <> CURSOR_MOVE ->
             ~ In ty
                 match GE._last_position e with
                 | Some last =>
                     if ltb (GestureConfig.velocity_threshold (GE.config e))
                            (Qabs (Point3D.x index - fst last))
                        || ltb (GestureConfig.velocity_threshold (GE.config e))
                               (Qabs (Point3D.y index - snd last))
                     then [CURSOR_MOVE] else []
                 | None => []
                 end).
  { intros ty Hty. destruct (GE._last_position e); [|intros []].
    destruct (_ || _); cbn; intuition congruence. }
  assert (Hr : forall ty st,
             ty <> RIGHT_CLICK ->
             ~ In ty match st with RELEASED => [RIGHT_CLICK] | _ => [] end).
  { intros ty [] Hty; cbn; intuition congruence. }
  assert (Hmid : forall ty l,
             ty <> CURSOR_MOVE -> ty <> RIGHT_CLICK ->
             (In ty
                (match GE._last_position e with
                 | Some last =>
                     if ltb (GestureConfig.velocity_threshold (GE.config e))
                            (Qabs (Point3D.x index - fst last))
                        || ltb (GestureConfig.velocity_threshold (GE.config e))
                               (Qabs (Point3D.y index - snd last))
                     then [CURSOR_MOVE] else []
                 | None => []
                 end
                 ++ l
                 ++ match PD._state
                            (PD.update (GE.t_right clk)
                               (Point3D.distance_to np_sqrt thumb middle)
                               (GE._right_pinch e)) with
                    | RELEASED => [RIGHT_CLICK]
                    | _ => []
                    end)
              <-> In ty l)).
  { intros ty l H1 H2. rewrite !in_app_iff. split; [|tauto].
    intros [H|[H|H]]; [exfalso; exact (Hc ty H1 H) | exact H
                       | exfalso; exact (Hr ty _ H2 H)]. }
  rewrite (Hmid LEFT_CLICK) by discriminate.
  rewrite (Hmid DRAG_END) by discriminate.
  rewrite (Hmid DRAG_MOVE) by discriminate.
  rewrite (Hmid DRAG_START) by discriminate.
  destruct (PD._state left) eqn:Es;
    destruct (PD._state (PD.update (GE.t_left clk) distance left)) eqn:Es';
    destruct (GE._is_dragging e) eqn:Eb; cbn [In];
    try (destruct (proj1 Inv eq_refl); fail);
    try (discriminate (proj1 Inv eq_refl));
    try (discriminate (proj2 Inv eq_refl));
    intuition (try discriminate; try congruence; try lra).
Qed.

End EngineProperties.

Lemma process_frame_shape_witness :
  let o := GE.process sqrt6 (at_time (1700000000 + (1 # 10))) pinching_hand
             engine_after_open_hand in
  exists c l r : option Gesture.t,
    GE.returned o = GE.opt_list c ++ GE.opt_list l ++ GE.opt_list r
    /\ GE.dispatched o = GE.returned o
    /\ (forall g, c = Some g -> Gesture.type g = CURSOR_MOVE)
    /\ (forall g, l = Some g ->
          Gesture.type g = LEFT_CLICK \/ Gesture.type g = DRAG_START
          \/ Gesture.type g = DRAG_MOVE \/ Gesture.type g = DRAG_END)
    /\ (forall g, r = Some g -> Gesture.type g = RIGHT_CLICK)
    /\ Forall (fun g => Gesture.position g = cursor_of index_near_thumb)
              (GE.returned o)
    /\ GE._last_position (GE.engine o) = Some (cursor_of index_near_thumb).
Proof.
  exact (process_frame_shape sqrt6 (at_time (1700000000 + (1 # 10)))
           pinching_hand engine_after_open_hand
           thumb_at_centre index_near_thumb middle_away
           eq_refl eq_refl eq_refl eq_refl).
Defined.

Lemma cursor_move_iff_moved_witness :
  In CURSOR_MOVE
     (map Gesture.type
        (GE.returned
           (GE.process sqrt6 (at_time (1700000000 + (1 # 10))) pinching_hand
              engine_after_open_hand)))
  <-> exists last,
        GE._last_position engine_after_open_hand = Some last
        /\ (GestureConfig.velocity_threshold (GE.config engine_after_open_hand)
               < Qabs (Point3D.x index_near_thumb - fst last)
            \/ GestureConfig.velocity_threshold (GE.config engine_after_open_hand)
                 < Qabs (Point3D.y index_near_thumb - snd last)).
Proof.
  exact (cursor_move_iff_moved sqrt6 (at_time (1700000000 + (1 # 10)))
           pinching_hand engine_after_open_hand
           thumb_at_centre index_near_thumb middle_away
           eq_refl eq_refl eq_refl eq_refl).
Defined.

Lemma right_click_iff_released_witness :
  In RIGHT_CLICK
     (map Gesture.type
        (GE.returned
           (GE.process sqrt6 (at_time (1700000000 + (1 # 10))) pinching_hand
              engine_after_open_hand)))
  <-> (PD._state (GE._right_pinch engine_after_open_hand) = TRIGGERED
       \/ PD._state (GE._right_pinch engine_after_open_hand) = HOLDING)
      /\ PD.threshold (GE._right_pinch engine_after_open_hand)
         <= Point3D.distance_to sqrt6 thumb_at_centre middle_away.
Proof.
  exact (right_click_iff_released sqrt6 (at_time (1700000000 + (1 # 10)))
           pinching_hand engine_after_open_hand
           thumb_at_centre index_near_thumb middle_away
           eq_refl eq_refl eq_refl eq_refl).
Defined.

Lemma process_missing_landmarks_witness :
  GE.process sqrt6 (at_time (1700000000 + (1 # 10))) hand_without_landmarks
    engine_after_open_hand
  = GE.mk_outcome [] [] engine_after_open_hand.
Proof.
  apply (process_missing_landmarks sqrt6); [reflexivity | cbn; lia].
Defined.

Lemma hand_loss_resets_engine_witness :
  let o := GE.process sqrt6 (at_time (1700000000 + (1 # 10))) no_hand
             engine_after_open_hand in
  GE.engine o = GE.reset engine_after_open_hand
  /\ PD._state (GE._left_pinch (GE.engine o)) = IDLE
  /\ PD._state (GE._right_pinch (GE.engine o)) = IDLE
  /\ GE._last_position (GE.engine o) = None
  /\ GE._is_dragging (GE.engine o) = false
  /\ summary (GE.dispatched o)
     = if GE._is_dragging engine_after_open_hand
       then [(DRAG_END, match GE._last_position engine_after_open_hand with
                        | Some p => p
                        | None => (0, 0)
                        end)]
       else [].
Proof.
  exact (hand_loss_resets_engine sqrt6 (at_time (1700000000 + (1 # 10)))
           no_hand engine_after_open_hand eq_refl).
Defined.

Lemma left_pinch_gestures_witness :
  let e := GE.after sqrt6 [GE.Frame (at_time 1700000000) open_hand]
             (GE.init GestureConfig.default) in
  let left := GE._left_pinch e in
  let distance := Point3D.distance_to sqrt6 thumb_at_centre index_near_thumb in
  let types :=
    map Gesture.type
      (GE.returned
         (GE.process sqrt6 (at_time (1700000000 + (1 # 10))) pinching_hand e)) in
  (In LEFT_CLICK types
   <-> PD._state left = TRIGGERED /\ PD.threshold left <= distance)
  /\ (In DRAG_END types
      <-> PD._state left = HOLDING /\ PD.threshold left <= distance)
  /\ (In DRAG_MOVE types
      <-> PD._state left = HOLDING /\ distance < PD.threshold left)
  /\ (In DRAG_START types
      <-> PD._state left = TRIGGERED
          /\ PD._state
               (PD.update (GE.t_left (at_time (1700000000 + (1 # 10))))
                  distance left) = HOLDING).
Proof.
  exact (left_pinch_gestures sqrt6 GestureConfig.default
           [GE.Frame (at_time 1700000000) open_hand]
           (at_time (1700000000 + (1 # 10))) pinching_hand
           thumb_at_centre index_near_thumb middle_away
           eq_refl eq_refl eq_refl eq_refl).
Defined.

(** The drag of the test suite: one [DRAG_START] and one [DRAG_END]. *)
Example drag_and_drop_types :
  dispatched_types (GE.run sqrt6 drag_and_drop (GE.init GestureConfig.default))
  = [CURSOR_MOVE; DRAG_START; CURSOR_MOVE; DRAG_END].
Proof. vm_compute. reflexivity. Qed.

(** ** Callback table *)

Lemma GestureType_eqb_eq (a b : GestureType) :
  GE.GestureType_eqb a b = true <-> a = b.
Proof. destruct a, b; cbn; split; intro H; congruence. Qed.

Lemma remove_first_snoc (cb : nat) (l : list nat) :
  ~ In cb l -> GE.remove_first cb (l ++ [cb]) = l.
Proof.
  induction l as [|x l IH]; intro H; cbn [app GE.remove_first].
  - now rewrite Nat.eqb_refl.
  - destruct (Nat.eqb_spec x cb) as [->|_]; [exfalso; apply H; now left|].
    rewrite IH; [reflexivity|]. intro Hin. apply H. now right.
Qed.

Lemma remove_first_absent (cb : nat) (l : list nat) :
  ~ In cb l -> GE.remove_first cb l = l.
Proof.
  induction l as [|x l IH]; intro H; cbn [GE.remove_first]; [reflexivity|].
  destruct (Nat.eqb_spec x cb) as [->|_]; [exfalso; apply H; now left|].
  rewrite IH; [reflexivity|]. intro Hin. apply H. now right.
Qed.

(** Registering and unregistering callbacks.  A callback registered with
    [on_gesture] for a type is called for the gestures of that type only,
    after the callbacks registered before it; [off_gesture] undoes the
    registration of a callback that was not in the list before, and does
    nothing for a callback that is not registered. *)
Theorem callbacks_register_unregister
  (table : GE.callbacks) (ty : GestureType) (cb : nat) :
  (forall g,
      GE._trigger_callbacks g (GE.on_gesture ty cb table)
      = GE._trigger_callbacks g table
        ++ (if GE.GestureType_eqb (Gesture.type g) ty then [(cb, g)] else []))
  /\ (~ In cb (table ty) ->
      (forall ty', GE.off_gesture ty cb (GE.on_gesture ty cb table) ty' = table ty')
      /\ (forall ty', GE.off_gesture ty cb table ty' = table ty')).
Proof.
  split.
  - intro g. unfold GE._trigger_callbacks, GE.on_gesture.
    destruct (GE.GestureType_eqb (Gesture.type g) ty).
    + now rewrite map_app.
    + now rewrite app_nil_r.
  - intro Hnot. split; intro ty'; unfold GE.off_gesture, GE.on_gesture.
    + destruct (GE.GestureType_eqb ty' ty) eqn:E; [|reflexivity].
      apply GestureType_eqb_eq in E. subst ty'.
      rewrite remove_first_snoc by exact Hnot.
      rewrite existsb_app. cbn [existsb]. rewrite Nat.eqb_refl.
      now rewrite orb_true_r.
    + destruct (GE.GestureType_eqb ty' ty) eqn:E; [|reflexivity].
      apply GestureType_eqb_eq in E. subst ty'.
      rewrite remove_first_absent by exact Hnot.
      now destruct (existsb _ _).
Qed.

Lemma callbacks_register_unregister_witness :
  ~ In 7%nat (GE.no_callbacks LEFT_CLICK)
  /\ (forall ty',
        GE.off_gesture LEFT_CLICK 7 (GE.on_gesture LEFT_CLICK 7 GE.no_callbacks) ty'
        = GE.no_callbacks ty').
Proof.
  assert (H : ~ In 7%nat (GE.no_callbacks LEFT_CLICK)) by (intros []).
  split; [exact H|].
  exact (proj1 (proj2 (callbacks_register_unregister GE.no_callbacks LEFT_CLICK 7) H)).
Defined.

(* ================================================================== *)
(** * Further properties of the zone mapper *)
(* ================================================================== *)

Module ZM := ZoneMapper.



Lemma int_inject_Z (q : Q) (z : Z) : q == inject_Z z -> int q = z.
Proof.
  intro H.
  destruct (int_between q z z) as [H1 H2]; [rewrite H | rewrite H | lia];
    apply Qle_refl.
Qed.

Lemma map_position_plain
  (cfg : ZoneConfig.t) (pos : Q * Q) (self : ZM.t) :
  ZM.config self = cfg ->
  ZoneConfig.smoothing cfg <= 0 \/ ZM._last_position self = None ->
  ZM.map_position pos self
  = (new_screen cfg pos, ZM.mk cfg (Some (new_screen cfg pos))).
Proof.
  intros Hcfg H. unfold ZM.map_position, new_screen. rewrite Hcfg.
  destruct pos as [x y]. cbn [fst snd].
  destruct (ZM._last_position self) as [last|].
  - destruct H as [H|H]; [|discriminate]. apply ltb_false in H.
    rewrite H. reflexivity.
  - reflexivity.
Qed.

(** Without smoothing ([smoothing <= 0]), and on the first call of a new or
    reset mapper whatever [smoothing] is, [map_position] returns the pixel
    of the sample alone: the result does not depend on earlier calls, and
    two calls with the same position give the same point. *)
Theorem map_position_without_smoothing
  (cfg : ZoneConfig.t) (pos : Q * Q) (self : ZM.t) :
  ZM.config self = cfg ->
  ZoneConfig.smoothing cfg <= 0 \/ ZM._last_position self = None ->
  ZM.map_position pos self
  = (new_screen cfg pos, ZM.mk cfg (Some (new_screen cfg pos))).
Proof. exact (map_position_plain cfg pos self). Qed.

Lemma map_position_without_smoothing_witness :
  ZM.map_position (1 # 4, 1 # 2)
    (ZM.mk ZoneConfig.default (Some (ScreenPoint.mk 100 200)))
  = (ScreenPoint.mk 1440 540,
     ZM.mk ZoneConfig.default (Some (ScreenPoint.mk 1440 540))).
Proof.
  assert (H : ZoneConfig.smoothing ZoneConfig.default <= 0) by apply Qle_refl.
  rewrite (map_position_without_smoothing ZoneConfig.default (1 # 4, 1 # 2)
             (ZM.mk ZoneConfig.default (Some (ScreenPoint.mk 100 200)))
             eq_refl (or_introl H)).
  vm_compute. reflexivity.
Defined.

Lemma blend_full_smoothing (s : Q) (screen last : Z) :
  s == 1 -> ZM.blend s screen last = last.
Proof.
  intro H. unfold ZM.blend. apply int_inject_Z. rewrite H. ring.
Qed.

(** With [smoothing = 1] the pointer never moves: every call returns the
    point of the first call. *)
Theorem full_smoothing_freezes_pointer
  (cfg : ZoneConfig.t) (first : Q * Q) (positions : list (Q * Q)) :
  ZoneConfig.smoothing cfg == 1 ->
  ZM.run (first :: positions) (ZM.init cfg)
  = repeat (new_screen cfg first) (S (length positions)).
Proof.
  intro Hs.
  assert (Hlt : ltb 0 (ZoneConfig.smoothing cfg) = true)
    by (apply ltb_true; rewrite Hs; reflexivity).
  assert (Hgen : forall ps p,
             ZM.run ps (ZM.mk cfg (Some p)) = repeat p (length ps)).
  { induction ps as [|[x y] ps IH]; intro p; [reflexivity|].
    cbn [ZM.run length repeat]. unfold ZM.map_position.
    cbn [ZM.config ZM._last_position]. rewrite Hlt.
    rewrite !(blend_full_smoothing _ _ _ Hs).
    destruct p as [px py]. cbn [ScreenPoint.x ScreenPoint.y].
    now rewrite IH. }
  cbn [ZM.run].
  rewrite (map_position_plain cfg first (ZM.init cfg) eq_refl
             (or_intror eq_refl)).
  cbn [repeat]. now rewrite Hgen.
Qed.

Lemma full_smoothing_freezes_pointer_witness :
  ZM.run [(0, 0); (1, 1); (1 # 2, 1 # 3)]
    (ZM.init (ZoneConfig.mk 1920 1080 1 (2 # 100) true false 10 1 3 3))
  = repeat (ScreenPoint.mk 1910 10) 3.
Proof.
  assert (H : ZoneConfig.smoothing
                (ZoneConfig.mk 1920 1080 1 (2 # 100) true false 10 1 3 3) == 1)
    by reflexivity.
  rewrite (full_smoothing_freezes_pointer
             (ZoneConfig.mk 1920 1080 1 (2 # 100) true false 10 1 3 3)
             (0, 0) [(1, 1); (1 # 2, 1 # 3)] H).
  vm_compute. reflexivity.
Defined.











(** With the default inversion of [x] the same position, not mirrored, is
    far from the stored point: (0.1, 0.5) is mapped near the right edge and
    is not in the dead zone of its own image. *)
Example unmirrored_point_outside_dead_zone :
  ZM.is_in_dead_zone (1 # 10, 1 # 2) None
    (snd (ZM.map_position (1 # 10, 1 # 2) (ZM.init ZoneConfig.default)))
  = Ok false.
Proof. vm_compute. reflexivity. Qed.

(** Edge cases of [is_in_dead_zone].  Without a reference and before any
    point was mapped it answers [False].  With a reference it never raises
    and is symmetric in the two positions.  Without a reference, after a
    point was mapped, a screen width of 0 is a division by zero. *)
Theorem is_in_dead_zone_edges (self : ZM.t) (p q : Q * Q) :
  (ZM._last_position self = None -> ZM.is_in_dead_zone p None self = Ok false)
  /\ (exists b, ZM.is_in_dead_zone p (Some q) self = Ok b
                /\ ZM.is_in_dead_zone q (Some p) self = Ok b)
  /\ (ZM._last_position self <> None ->
      ZoneConfig.screen_width (ZM.config self) = 0%Z ->
      ZM.is_in_dead_zone p None self = Raise ZeroDivisionError).
Proof.
  unfold ZM.is_in_dead_zone. split; [|split].
  - intros ->. reflexivity.
  - cbn [bind]. eexists. split; [reflexivity|].
    rewrite (Qabs_Qminus (fst q) (fst p)), (Qabs_Qminus (snd q) (snd p)).
    reflexivity.
  - intros Hl Hw. destruct (ZM._last_position self); [|congruence].
    rewrite Hw. reflexivity.
Qed.

Lemma is_in_dead_zone_edges_witness :
  ZM.is_in_dead_zone (1 # 2, 1 # 2) None (ZM.init ZoneConfig.default) = Ok false.
Proof.
  exact (proj1 (is_in_dead_zone_edges (ZM.init ZoneConfig.default)
                  (1 # 2, 1 # 2) (0, 0)) eq_refl).
Defined.

(* ================================================================== *)
(** * Smoothing of landmarks in the hand tracker *)
(* ================================================================== *)

Lemma index_middle {A} (pre post : list A) (e : A) (i : Z) :
  Z.of_nat (length pre) = i -> index (pre ++ e :: post) i = Ok e.
Proof.
  intro H. unfold index, len. rewrite length_app. cbn [length].
  destruct (Z.ltb_spec i 0); [lia|].
  destruct (Z.leb_spec 0 i); [|lia].
  destruct (Z.ltb_spec i (Z.of_nat (length pre + S (length post)))); [|lia].
  cbn [andb]. replace (Z.to_nat i) with (length pre) by lia.
  now rewrite nth_error_app2, Nat.sub_diag by lia.
Qed.

Lemma index_past_end {A} (xs : list A) (i : Z) :
  (len xs <= i)%Z -> index xs i = Raise IndexError.
Proof.
  intro H. unfold index. unfold len in *.
  destruct (Z.ltb_spec i 0); [lia|].
  destruct (Z.ltb_spec i (Z.of_nat (length xs))); [lia|].
  now rewrite andb_false_r.
Qed.

Lemma replace_at_middle {A} (pre post : list A) (e e' : A) :
  HT.replace_at (length pre) e' (pre ++ e :: post) = pre ++ e' :: post.
Proof.
  induction pre as [|x pre IH]; cbn [length app HT.replace_at];
    [reflexivity | now rewrite IH].
Qed.

Lemma smoother_update_middle (pre post : list EMA.t) (e e' : EMA.t)
      (i : Z) (v o : Q) :
  Z.of_nat (length pre) = i ->
  EMA.update v e = Ok (o, e') ->
  HT.smoother_update i v (pre ++ e :: post) = Ok (o, pre ++ e' :: post).
Proof.
  intros Hi Hu. unfold HT.smoother_update.
  rewrite (index_middle pre post e i Hi). cbn [bind]. rewrite Hu. cbn [bind].
  replace (Z.to_nat i) with (length pre) by lia.
  now rewrite replace_at_middle.
Qed.

(** One landmark against its three smoothers. *)
Lemma smooth_from_step (pre post : list EMA.t) (e1 e2 e3 e1' e2' e3' : EMA.t)
      (i : Z) (p : Point3D.t) (ox oy oz : Q) (rest : list Point3D.t) :
  Z.of_nat (length pre) = (i * 3)%Z ->
  EMA.update (Point3D.x p) e1 = Ok (ox, e1') ->
  EMA.update (Point3D.y p) e2 = Ok (oy, e2') ->
  EMA.update (Point3D.z p) e3 = Ok (oz, e3') ->
  HT.smooth_from i (p :: rest) (pre ++ e1 :: e2 :: e3 :: post)
  = ('(smoothed, sm) <-
       HT.smooth_from (i + 1) rest ((pre ++ [e1'; e2'; e3']) ++ post) ;;
     Ok (Point3D.mk ox oy oz :: smoothed, sm)).
Proof.
  intros Hi H1 H2 H3. cbn [HT.smooth_from].
  rewrite (smoother_update_middle pre (e2 :: e3 :: post) e1 e1' _ _ ox Hi H1).
  cbn [bind].
  change (pre ++ e1' :: e2 :: e3 :: post)
    with (pre ++ [e1'] ++ e2 :: e3 :: post).
  rewrite app_assoc.
  rewrite (smoother_update_middle (pre ++ [e1']) (e3 :: post) e2 e2' _ _ oy);
    [|rewrite length_app; cbn [length]; lia | exact H2].
  cbn [bind].
  change ((pre ++ [e1']) ++ e2' :: e3 :: post)
    with ((pre ++ [e1']) ++ [e2'] ++ e3 :: post).
  rewrite app_assoc.
  rewrite (smoother_update_middle ((pre ++ [e1']) ++ [e2']) post e3 e3' _ _ oz);
    [|rewrite !length_app; cbn [length]; lia | exact H3].
  cbn [bind].
  replace (((pre ++ [e1']) ++ [e2']) ++ e3' :: post)
    with ((pre ++ [e1'; e2'; e3']) ++ post); [reflexivity|].
  rewrite <- !app_assoc. reflexivity.
Qed.

Lemma point_eta (p : Point3D.t) :
  Point3D.mk (Point3D.x p) (Point3D.y p) (Point3D.z p) = p.
Proof. now destruct p. Qed.

Lemma smooth_from_fresh (a : Q) (landmarks : list Point3D.t) :
  forall (i : Z) (pre : list EMA.t) (k : nat),
    Z.of_nat (length pre) = (i * 3)%Z ->
    (3 * length landmarks <= k)%nat ->
    HT.smooth_from i landmarks (pre ++ repeat (EMA.mk a None false) k)
    = Ok (landmarks,
          (pre ++ flat_map (seeded a) landmarks)
          ++ repeat (EMA.mk a None false) (k - 3 * length landmarks)).
Proof.
  induction landmarks as [|p rest IH]; intros i pre k Hi Hk.
  - cbn. now rewrite app_nil_r, Nat.sub_0_r.
  - cbn [length] in Hk.
    destruct k as [|[|[|k]]]; try lia. cbn [repeat].
    erewrite (smooth_from_step pre (repeat (EMA.mk a None false) k));
      [|exact Hi | reflexivity | reflexivity | reflexivity].
    cbn [EMA.alpha]. fold (seeded a p).
    rewrite (IH (i + 1)%Z (pre ++ seeded a p) k);
      [|unfold seeded; rewrite length_app; cbn [length]; lia | lia].
    cbn [bind flat_map]. rewrite point_eta.
    replace (S (S (S k)) - 3 * length (p :: rest))%nat
      with (k - 3 * length rest)%nat by (cbn [length]; lia).
    now rewrite <- !app_assoc.
Qed.

Lemma smooth_from_seeded (a : Q) (previous : list Point3D.t) :
  forall (new : list Point3D.t) (i : Z) (pre post : list EMA.t),
    Z.of_nat (length pre) = (i * 3)%Z ->
    length new = length previous ->
    HT.smooth_from i new (pre ++ flat_map (seeded a) previous ++ post)
    = Ok (blend_frames a previous new,
          pre ++ flat_map (seeded a) (blend_frames a previous new) ++ post).
Proof.
  induction previous as [|q previous IH]; intros new i pre post Hi Hlen.
  - destruct new; [reflexivity | discriminate].
  - destruct new as [|p new]; [discriminate|]. cbn [length] in Hlen.
    cbn [flat_map seeded app].
    erewrite (smooth_from_step pre (flat_map (seeded a) previous ++ post));
      [|exact Hi | reflexivity | reflexivity | reflexivity].
    cbn [EMA.alpha EMA._initialized].
    rewrite <- app_assoc.
    match goal with
    | |- context [HT.smooth_from _ _ (pre ++ ?three ++ ?tail)] =>
        rewrite (app_assoc pre three tail)
    end.
    rewrite IH; [|rewrite length_app; cbn [length]; lia | lia].
    cbn [bind blend_frames flat_map seeded blend_point
         Point3D.x Point3D.y Point3D.z].
    now rewrite <- !app_assoc.
Qed.

Lemma smooth_from_app (l1 : list Point3D.t) :
  forall (l2 : list Point3D.t) (i : Z) (sm : list EMA.t),
    HT.smooth_from i (l1 ++ l2) sm
    = ('(o1, sm1) <- HT.smooth_from i l1 sm ;;
       '(o2, sm2) <- HT.smooth_from (i + Z.of_nat (length l1)) l2 sm1 ;;
       Ok (o1 ++ o2, sm2)).
Proof.
  induction l1 as [|p l1 IH]; intros l2 i sm.
  - cbn [app HT.smooth_from bind length Z.of_nat]. rewrite Z.add_0_r.
    destruct (HT.smooth_from i l2 sm) as [[? ?]|]; reflexivity.
  - cbn [app HT.smooth_from].
    destruct (HT.smoother_update _ _ sm) as [[? s1]|]; cbn [bind]; [|reflexivity].
    destruct (HT.smoother_update _ _ s1) as [[? s2]|]; cbn [bind]; [|reflexivity].
    destruct (HT.smoother_update _ _ s2) as [[? s3]|]; cbn [bind]; [|reflexivity].
    rewrite IH.
    destruct (HT.smooth_from (i + 1) l1 s3) as [[? s4]|]; cbn [bind];
      [|reflexivity].
    replace (i + Z.of_nat (length (p :: l1)))%Z
      with (i + 1 + Z.of_nat (length l1))%Z by (cbn [length]; lia).
    destruct (HT.smooth_from _ l2 s4) as [[? ?]|]; reflexivity.
Qed.

Lemma flat_map_seeded_length (a : Q) (l : list Point3D.t) :
  length (flat_map (seeded a) l) = (3 * length l)%nat.
Proof.
  induction l as [|p l IH]; [reflexivity|].
  cbn [flat_map seeded app length]. rewrite IH. lia.
Qed.

Lemma reset_seeded (a : Q) (l : list Point3D.t) :
  HT.reset_smoothing (flat_map (seeded a) l)
  = repeat (EMA.mk a None false) (3 * length l).
Proof.
  unfold HT.reset_smoothing.
  induction l as [|p l IH]; [reflexivity|].
  cbn [flat_map seeded app map length EMA.reset EMA.alpha]. rewrite IH.
  replace (3 * S (length l))%nat with (S (S (S (3 * length l)))) by lia.
  reflexivity.
Qed.

Lemma blend_frames_length (a : Q) (l1 : list Point3D.t) :
  forall l2, length l2 = length l1 -> length (blend_frames a l1 l2) = length l1.
Proof.
  induction l1 as [|p l1 IH]; intros [|q l2] H; try discriminate;
    [reflexivity|].
  cbn [blend_frames length]. rewrite IH; [reflexivity|]. now injection H.
Qed.

Lemma smooth_first_frame (a : Q) (f : list Point3D.t) :
  length f = 21%nat ->
  HT.smooth_from 0 f (repeat (EMA.mk a None false) 63)
  = Ok (f, flat_map (seeded a) f).
Proof.
  intro H.
  pose proof (smooth_from_fresh a f 0 [] 63 eq_refl ltac:(lia)) as E.
  rewrite H in E. change (63 - 3 * 21)%nat with 0%nat in E.
  cbn [app] in E. change (repeat (EMA.mk a None false) 0) with (@nil EMA.t) in E.
  now rewrite app_nil_r in E.
Qed.

(** The landmark smoothing of the tracker, started with a smoothing factor
    [a] in [[0,1]].  The first frame is returned as it is; the next frame
    is blended, landmark by landmark and coordinate by coordinate, as
    [a * new + (1 - a) * previous]; after [reset_smoothing()] a frame is
    again returned as it is.  There are smoothers for 21 landmarks: a frame
    with more raises [IndexError]. *)
Theorem landmark_smoothing (a : Q) :
  0 <= a <= 1 ->
  exists sm0,
    HT.start_smoothers a = Ok sm0
    /\ (forall f1 f2 : list Point3D.t,
          length f1 = 21%nat -> length f2 = 21%nat ->
          exists sm1 sm2,
            HT._smooth_landmarks f1 sm0 = Ok (f1, sm1)
            /\ HT._smooth_landmarks f2 sm1 = Ok (blend_frames a f1 f2, sm2)
            /\ HT._smooth_landmarks f1 (HT.reset_smoothing sm2) = Ok (f1, sm1))
    /\ (forall f : list Point3D.t,
          (21 < length f)%nat ->
          HT._smooth_landmarks f sm0 = Raise IndexError).
Proof.
  intro Ha. exists (repeat (EMA.mk a None false) 63). split; [|split].
  - unfold HT.start_smoothers. rewrite (ema_init_ok a Ha). reflexivity.
  - intros f1 f2 H1 H2. unfold HT._smooth_landmarks.
    pose proof (smooth_first_frame a f1 H1) as E1.
    exists (flat_map (seeded a) f1),
           (flat_map (seeded a) (blend_frames a f1 f2)).
    split; [exact E1|]. split.
    + pose proof (smooth_from_seeded a f1 f2 0 [] [] eq_refl ltac:(lia)) as E2.
      cbn [app] in E2. now rewrite !app_nil_r in E2.
    + rewrite reset_seeded.
      rewrite (blend_frames_length a f1 f2) by lia. rewrite H1. exact E1.
  - intros f Hf. unfold HT._smooth_landmarks.
    rewrite <- (firstn_skipn 21 f). rewrite smooth_from_app.
    assert (Hl : length (firstn 21 f) = 21%nat)
      by (rewrite length_firstn; lia).
    rewrite (smooth_first_frame a (firstn 21 f) Hl). cbn [bind]. rewrite Hl.
    destruct (skipn 21 f) as [|p rest] eqn:Es.
    + apply (f_equal (@length _)) in Es. rewrite length_skipn in Es.
      cbn [length] in Es. lia.
    + cbn [HT.smooth_from]. unfold HT.smoother_update at 1.
      rewrite index_past_end; [reflexivity|].
      unfold len. rewrite flat_map_seeded_length, Hl. lia.
Qed.

Lemma landmark_smoothing_witness :
  exists sm0,
    HT.start_smoothers (4 # 10) = Ok sm0
    /\ (forall f1 f2 : list Point3D.t,
          length f1 = 21%nat -> length f2 = 21%nat ->
          exists sm1 sm2,
            HT._smooth_landmarks f1 sm0 = Ok (f1, sm1)
            /\ HT._smooth_landmarks f2 sm1
               = Ok (blend_frames (4 # 10) f1 f2, sm2)
            /\ HT._smooth_landmarks f1 (HT.reset_smoothing sm2) = Ok (f1, sm1))
    /\ (forall f : list Point3D.t,
          (21 < length f)%nat ->
          HT._smooth_landmarks f sm0 = Raise IndexError).
Proof.
  assert (H : 0 <= 4 # 10 <= 1) by (split; discriminate).
  exact (landmark_smoothing (4 # 10) H).
Defined.

Lemma pinch_transitions_witness :
  PD._state (PD.run [PD.Update 1700000000 (3 # 100);
                     PD.Update (1700000000 + (1 # 10)) (1 # 10)]
               (PD.init (5 # 100) 200 300)) = RELEASED
  /\ PD._state
       (PD.update (1700000000 + (2 # 10)) (3 # 100)
          (PD.run [PD.Update 1700000000 (3 # 100);
                   PD.Update (1700000000 + (1 # 10)) (1 # 10)]
             (PD.init (5 # 100) 200 300))) = IDLE.
Proof.
  split; [reflexivity|].
  exact (proj1 (proj2 (proj2 (proj2
           (pinch_transitions (1700000000 + (2 # 10)) (3 # 100)
              (PD.run [PD.Update 1700000000 (3 # 100);
                       PD.Update (1700000000 + (1 # 10)) (1 # 10)]
                 (PD.init (5 # 100) 200 300)))))) eq_refl).
Defined.

(* ================================================================== *)
(** * Properties decided by rounding *)
(* ================================================================== *)

(** ** Zone mapper *)

Lemma axis_pixel_clamped (invert : bool) (sens : B64.float) (dim margin : Z)
      (v : B64.float) (p : Z) :
  (2 * margin <= dim)%Z ->
  B64.ZoneMapper.axis_pixel invert sens dim margin v = Ok p ->
  (margin <= p <= dim - margin)%Z.
Proof.
  intros H E. unfold B64.ZoneMapper.axis_pixel in E.
  destruct (B64.of_int dim) as [d|]; cbn [bind] in E; [|discriminate].
  destruct (B64.int _) as [screen|]; cbn [bind] in E; [|discriminate].
  injection E as <-. lia.
Qed.

(** The path without smoothing keeps the margins in binary64 too: the
    point of a first call, and every point when [smoothing <= 0], is the
    pixel as the integer clamp leaves it. *)
Lemma unsmoothed_point_within_margins
      (pos : B64.float * B64.float) (self self' : B64.ZoneMapper.t)
      (p : ScreenPoint.t) :
  let cfg := B64.ZoneMapper.config self in
  (2 * B64.ZoneConfig.margin cfg <= B64.ZoneConfig.screen_width cfg)%Z ->
  (2 * B64.ZoneConfig.margin cfg <= B64.ZoneConfig.screen_height cfg)%Z ->
  B64.ltb B64.zero (B64.ZoneConfig.smoothing cfg) = false
  \/ B64.ZoneMapper._last_position self = None ->
  B64.ZoneMapper.map_position pos self = Ok (p, self') ->
  (B64.ZoneConfig.margin cfg <= ScreenPoint.x p
   <= B64.ZoneConfig.screen_width cfg - B64.ZoneConfig.margin cfg)%Z
  /\ (B64.ZoneConfig.margin cfg <= ScreenPoint.y p
      <= B64.ZoneConfig.screen_height cfg - B64.ZoneConfig.margin cfg)%Z.
Proof.
  intros cfg Hw Hh Hplain E. unfold B64.ZoneMapper.map_position in E.
  fold cfg in E. destruct pos as [x y].
  destruct (B64.ZoneMapper.axis_pixel _ _ (B64.ZoneConfig.screen_width cfg) _ x)
    as [sx|] eqn:Ex; cbn [bind] in E; [|discriminate].
  destruct (B64.ZoneMapper.axis_pixel _ _ (B64.ZoneConfig.screen_height cfg) _ y)
    as [sy|] eqn:Ey; cbn [bind] in E; [|discriminate].
  pose proof (axis_pixel_clamped _ _ _ _ _ _ Hw Ex) as Hx.
  pose proof (axis_pixel_clamped _ _ _ _ _ _ Hh Ey) as Hy.
  assert (Ep : p = ScreenPoint.mk sx sy).
  { destruct Hplain as [Hs | Hl].
    - rewrite Hs in E. destruct (B64.ZoneMapper._last_position self);
        cbn [bind] in E; injection E as <- _; reflexivity.
    - rewrite Hl in E. cbn [bind] in E. injection E as <- _. reflexivity. }
  subst p. cbn [ScreenPoint.x ScreenPoint.y]. split; assumption.
Qed.

(** C3, at [ZoneConfig(smoothing=0.06)] (screen 1920 x 1080, margin 10,
    [x] inverted) and the position [(1.0, 0.0)] mapped twice.  The
    configuration and the position are as the claim wants them.  The first
    call clamps the pixel [(0, 0)] to the margin, [(10, 10)].  The second
    call blends [(10, 10)] with itself: [0.94 * 10 + 0.06 * 10] is
    [9.999999999999998] in binary64 and [int] truncates it, so the point
    returned, [(9, 9)], lies outside the margin. *)
Theorem smoothing_leaves_the_margins :
  B64.leb B64.zero (B64.ZoneConfig.smoothing six_percent_smoothing) = true
  /\ B64.leb (B64.ZoneConfig.smoothing six_percent_smoothing) B64.one = true
  /\ (2 * B64.ZoneConfig.margin six_percent_smoothing
      <= B64.ZoneConfig.screen_width six_percent_smoothing)%Z
  /\ (2 * B64.ZoneConfig.margin six_percent_smoothing
      <= B64.ZoneConfig.screen_height six_percent_smoothing)%Z
  /\ B64.ZoneMapper.run [(B64.one, B64.zero); (B64.one, B64.zero)]
       (B64.ZoneMapper.init six_percent_smoothing)
     = Ok [ScreenPoint.mk 10 10; ScreenPoint.mk 9 9]
  /\ (9 < B64.ZoneConfig.margin six_percent_smoothing)%Z
  /\ B64.ZoneMapper.blend (B64.decimal 6 100) 10 10 = Ok 9%Z.
Proof.
  split; [vm_compute; reflexivity|]. split; [vm_compute; reflexivity|].
  split; [cbn; lia|]. split; [cbn; lia|].
  split; [vm_compute; reflexivity|]. split; [cbn; lia|].
  vm_compute; reflexivity.
Qed.

(** ** Windowed moving average *)

(** C7, at [MovingAverage(2)].  The running sum keeps the rounding of the
    samples that have left the window.  Fed [1e16, 1.0, 1.0] the third
    update returns [0.5], where the mean of the window [1.0, 1.0] is
    [1.0]; fed [0.0, 1.0, 1.0] it returns [1.0]: the first input, which
    has left the window, decides the output.  With inputs between 0 and 1
    the same happens on the last digit: fed [0.7, 0.1, 0.1] the third
    update returns [0.09999999999999999], not [0.1]. *)
Theorem running_sum_keeps_departed_samples :
  moving_average_outputs 2 [B64.nearest (10 ^ 16); B64.one; B64.one]
  = Ok [B64.nearest (10 ^ 16); B64.nearest (5 * 10 ^ 15); B64.half]
  /\ moving_average_outputs 2 [B64.zero; B64.one; B64.one]
     = Ok [B64.zero; B64.half; B64.one]
  /\ float_mean [B64.one; B64.one] = Ok B64.one
  /\ B64.eqb B64.half B64.one = false
  /\ (exists q r,
        moving_average_outputs 2
          [B64.decimal 7 10; B64.decimal 1 10; B64.decimal 1 10]
        = Ok [B64.decimal 7 10; q; r]
        /\ B64.ltb r (B64.decimal 1 10) = true
        /\ float_mean [B64.decimal 1 10; B64.decimal 1 10]
           = Ok (B64.decimal 1 10)).
Proof.
  split; [vm_compute; reflexivity|]. split; [vm_compute; reflexivity|].
  split; [vm_compute; reflexivity|]. split; [vm_compute; reflexivity|].
  exists (S754_finite false 7205759403792793 (-54)),
         (S754_finite false 7205759403792793 (-56)).
  split; [vm_compute; reflexivity|]. split; vm_compute; reflexivity.
Qed.

(** ** One-euro filter *)

(** What the second update does once the time has advanced and the
    derivative filter has taken its alpha: the value filter, new, returns
    the sample. *)
Lemma oef_second_update (mc b dc v0 t0 v1 t1 : B64.float) :
  B64.leb (B64.sub t1 t0) B64.zero = false ->
  B64.OneEuroFilter.update v1 t1 (after_first_sample mc b dc v0 t0)
  = let dt := B64.sub t1 t0 in
    dx <- B64.div (B64.sub v1 v0) dt ;;
    d_alpha <- B64.OneEuroFilter._alpha dc dt ;;
    _ <- B64.ExponentialMovingAverage.set_alpha d_alpha
           (B64.ExponentialMovingAverage.mk B64.half None false) ;;
    x_alpha <- B64.OneEuroFilter._alpha
                 (B64.add mc (B64.mul b (B64.abs dx))) dt ;;
    _ <- B64.ExponentialMovingAverage.set_alpha x_alpha
           (B64.ExponentialMovingAverage.mk B64.half None false) ;;
    Ok (Some v1,
        B64.OneEuroFilter.mk mc b dc
          (Some (B64.ExponentialMovingAverage.mk x_alpha (Some v1) true))
          (Some (B64.ExponentialMovingAverage.mk d_alpha (Some dx) true))
          (Some v1) (Some t1)).
Proof.
  intro Hdt. unfold B64.OneEuroFilter.update, after_first_sample.
  cbn [B64.OneEuroFilter._last_time B64.OneEuroFilter._last_value
       B64.OneEuroFilter._dx_filter B64.OneEuroFilter._x_filter
       B64.OneEuroFilter.min_cutoff B64.OneEuroFilter.beta
       B64.OneEuroFilter.d_cutoff].
  rewrite Hdt. cbv zeta.
  destruct (B64.div (B64.sub v1 v0) (B64.sub t1 t0)) as [dx|]; [|reflexivity].
  cbn [bind].
  destruct (B64.OneEuroFilter._alpha dc (B64.sub t1 t0)) as [da|];
    [|reflexivity].
  cbn [bind]. unfold B64.ExponentialMovingAverage.set_alpha.
  cbn [B64.ExponentialMovingAverage._value
       B64.ExponentialMovingAverage._initialized].
  destruct (B64.outside_unit da); [reflexivity|]. cbn [bind].
  unfold B64.ExponentialMovingAverage.update at 1.
  cbn [B64.ExponentialMovingAverage._initialized negb
       B64.ExponentialMovingAverage.alpha bind].
  destruct (B64.OneEuroFilter._alpha _ (B64.sub t1 t0)) as [xa|];
    [|reflexivity].
  cbn [bind]. destruct (B64.outside_unit xa); [reflexivity|]. cbn [bind].
  reflexivity.
Qed.

(** The second sample passes unsmoothed.  The first update creates the
    value filter without feeding it the sample, so the second update, at a
    later time, is the first the value filter sees: whenever it returns,
    it returns its input as it is, and it does return when [set_alpha]
    accepts the two alphas computed from the time step.  (It raises when
    an alpha is not a number in [[0,1]], as after an overflow.) *)
Theorem oef_second_sample_unsmoothed (mc b dc v0 t0 v1 t1 : B64.float) :
  B64.leb (B64.sub t1 t0) B64.zero = false ->
  B64.OneEuroFilter.update v0 t0 (B64.OneEuroFilter.init mc b dc)
  = Ok (Some v0, after_first_sample mc b dc v0 t0)
  /\ (forall o f,
        B64.OneEuroFilter.update v1 t1 (after_first_sample mc b dc v0 t0)
        = Ok (o, f) ->
        o = Some v1)
  /\ (forall dx d_alpha x_alpha,
        B64.div (B64.sub v1 v0) (B64.sub t1 t0) = Ok dx ->
        B64.OneEuroFilter._alpha dc (B64.sub t1 t0) = Ok d_alpha ->
        B64.outside_unit d_alpha = false ->
        B64.OneEuroFilter._alpha (B64.add mc (B64.mul b (B64.abs dx)))
          (B64.sub t1 t0) = Ok x_alpha ->
        B64.outside_unit x_alpha = false ->
        exists f,
          B64.OneEuroFilter.update v1 t1 (after_first_sample mc b dc v0 t0)
          = Ok (Some v1, f)).
Proof.
  intro Hdt. split; [reflexivity|]. rewrite (oef_second_update _ _ _ _ _ _ _ Hdt).
  cbv zeta. split.
  - intros o f.
    destruct (B64.div _ _) as [dx|]; [|discriminate]. cbn [bind].
    destruct (B64.OneEuroFilter._alpha dc _) as [da|]; [|discriminate].
    cbn [bind].
    destruct (B64.ExponentialMovingAverage.set_alpha da _); [|discriminate].
    cbn [bind].
    destruct (B64.OneEuroFilter._alpha _ _) as [xa|]; [|discriminate].
    cbn [bind].
    destruct (B64.ExponentialMovingAverage.set_alpha xa _); [|discriminate].
    cbn [bind]. intro E. injection E as <- _. reflexivity.
  - intros dx da xa Edx Eda Hda Exa Hxa. rewrite Edx. cbn [bind].
    rewrite Eda. cbn [bind]. unfold B64.ExponentialMovingAverage.set_alpha.
    rewrite Hda. cbn [bind]. rewrite Exa. cbn [bind]. rewrite Hxa.
    cbn [bind]. eexists. reflexivity.
Qed.

(** The case of the test suite ([test_smoothing_on_slow_movement], which
    expects a value strictly between 0 and 1): [OneEuroFilter(1.0, 0.007)]
    fed [(0.0, 0.0)] and [(1.0, 1.0)] returns [1.0]. *)
Lemma oef_second_sample_unsmoothed_witness :
  B64.leb (B64.sub B64.one B64.zero) B64.zero = false
  /\ exists f,
       B64.OneEuroFilter.update B64.one B64.one
         (after_first_sample B64.one (B64.decimal 7 1000) B64.one
            B64.zero B64.zero)
       = Ok (Some B64.one, f).
Proof.
  assert (Hdt : B64.leb (B64.sub B64.one B64.zero) B64.zero = false)
    by (vm_compute; reflexivity).
  split; [exact Hdt|].
  refine (proj2 (proj2 (oef_second_sample_unsmoothed
                          B64.one (B64.decimal 7 1000) B64.one
                          B64.zero B64.zero B64.one B64.one Hdt))
            B64.one
            (S754_finite false 7770487723337018 (-53))
            (S754_finite false 7777911248633643 (-53)) _ _ _ _ _);
    vm_compute; reflexivity.
Defined.
